(** * The real-time audio pipeline of the WebRTC client

    Shallow embedding of
    - [RnnoiseProcessor] (the AudioWorklet processor: frame aggregation,
      denoise transform with pass-through recovery, throttled VAD posts);
    - the speaking detector of [useStreamReceiver.js] ([computeRms],
      [audioLevelLoop]).

    JavaScript numbers are IEEE-754 binary64 values; they are modelled by
    the Standard Library's [spec_float] with its specification-level
    operations at precision 53 and maximal exponent 1024, so that
    comparisons against the thresholds behave as in the source, NaN
    included.  Typed arrays are lists of such values; the frame size,
    the interval and the frame counter are integers.

    The largest length of a typed array that the engine allocates is a
    parameter of the constructor, whose allocation takes its length from
    the options.  The arrays that [process] allocates are as long as
    arrays it already holds, taken together, and are taken to be within
    that limit.  Not modelled: the rounding of stored samples to single
    precision, and a [processFrame] that does not return; the denoise
    transform is a parameter. *)

From Stdlib Require Import ZArith Lia.
From Stdlib Require Import Floats.SpecFloat.
From stdpp Require Import base option list strings.

Local Open Scope Z_scope.

(** ** JavaScript numbers *)

Module Js.

Definition num : Type := spec_float.

Definition prec : Z := 53.
Definition emax : Z := 1024.

Definition zero : num := S754_zero false.
Definition nan : num := S754_nan.
Definition negzero : num := S754_zero true.

(** An integer of the source text as a double. *)
Definition of_Z (z : Z) : num := binary_normalize prec emax z 0 false.

Definition add : num -> num -> num := SFadd prec emax.
Definition sub : num -> num -> num := SFsub prec emax.
Definition mul : num -> num -> num := SFmul prec emax.
Definition div : num -> num -> num := SFdiv prec emax.
Definition sqrt : num -> num := SFsqrt prec emax.

(** [x >= y] and [x < y]; both are false as soon as one side is NaN. *)
Definition ge (x y : num) : bool := SFleb y x.
Definition lt (x y : num) : bool := SFltb x y.

(** A decimal literal [m / 10^k] of the source text: the double nearest
    to the quotient, which is what a correctly rounded division of the
    two exactly representable integers gives. *)
Definition decimal (m : Z) (k : nat) : num := div (of_Z m) (of_Z (10 ^ Z.of_nat k)).

(** Truthiness of a number: [0], [-0] and [NaN] are falsy. *)
Definition truthy (x : num) : bool :=
  match x with
  | S754_zero _ | S754_nan => false
  | _ => true
  end.

(** [x || 0] where [x] is an array read: an index out of range reads
    [undefined], which is falsy as well. *)
Definition or_zero (x : option num) : num :=
  match x with
  | Some v => if truthy v then v else zero
  | None => zero
  end.

(** [a % b === 0] on integers held in doubles: the remainder takes the
    sign of the dividend, and [a % 0] is NaN, which is not [0]. *)
Definition rem (a b : Z) : option Z :=
  if b =? 0 then None else Some (Z.rem a b).

Definition rem_is_zero (a b : Z) : bool :=
  match rem a b with
  | Some 0 => true
  | _ => false
  end.

End Js.

(** ** The speaking detector ([useStreamReceiver.js]) *)

Module Detector.

Import Js.

Definition speakingThresholdOn : num := decimal 4 2.   (* 0.04 *)
Definition speakingThresholdOff : num := decimal 2 2.  (* 0.02 *)
Definition rmsHistoryLength : nat := 5.
Definition vadSpeakingThreshold : num := decimal 6 1.  (* 0.6 *)

(** The entry of [speakerAnalyzers] for one member; the analyser node
    itself is the environment and appears as the bytes it delivers. *)
Record analyzerObj := {
  history : list num;
  speaking : bool;
}.

(** [computeRms]: bytes 0..255 centred on 128. *)
Definition computeRms (data : list Z) : num :=
  let sum :=
    foldl (fun sum d =>
             let v := div (sub (of_Z d) (of_Z 128)) (of_Z 128) in
             add sum (mul v v))
          zero data in
  sqrt (div sum (of_Z (Z.of_nat (length data)))).

(** [history.push(rms); if (history.length > rmsHistoryLength) history.shift()] *)
Definition push_history (h : list num) (rms : num) : list num :=
  let h1 := h ++ [rms] in
  if (rmsHistoryLength <? length h1)%nat then tail h1 else h1.

(** [history.reduce((a, b) => a + b, 0) / history.length] *)
Definition average (h : list num) : num :=
  div (foldl add zero h) (of_Z (Z.of_nat (length h))).

(** Step 1 of the loop body: the two-threshold rule on the average. *)
Definition rms_rule (prev : bool) (avg : num) : bool :=
  if negb prev && ge avg speakingThresholdOn then true
  else if prev && lt avg speakingThresholdOff then false
  else prev.

(** Step 2: reinforcement by the latest VAD value, for the local member. *)
Definition vad_rule (isLocal : bool) (latestVad : num) (next : bool) : bool :=
  if isLocal then
    if negb next && ge latestVad vadSpeakingThreshold then true else next
  else next.

Definition decide_next (prev : bool) (avg : num) (isLocal : bool) (latestVad : num) : bool :=
  vad_rule isLocal latestVad (rms_rule prev avg).

(** What one animation frame sees from outside the loop. *)
Record tickEnv := {
  byteData : string -> list Z;       (* getByteTimeDomainData per member *)
  localMember : option string;       (* localMember.value?.id *)
  latestVadValue : num;
}.

Definition is_local (env : tickEnv) (memberId : string) : bool :=
  match localMember env with
  | Some id => String.eqb memberId id
  | None => false
  end.

(** The state-change notification: a call of [updateSpeakingVisual]. *)
Definition notification : Type := string * bool.

(** The body of the [for ... of speakerAnalyzers.entries()] loop. *)
Definition tick_member (env : tickEnv) (memberId : string) (obj : analyzerObj)
  : analyzerObj * list notification :=
  let rms := computeRms (byteData env memberId) in
  let h := push_history (history obj) rms in
  let avg := average h in
  let prev := speaking obj in
  let next := decide_next prev avg (is_local env memberId) (latestVadValue env) in
  if Bool.eqb next prev
  then ({| history := h; speaking := prev |}, [])
  else ({| history := h; speaking := next |}, [(memberId, next)]).

(** [speakerAnalyzers] is a [Map]; its entries are visited in insertion
    order, so it is kept as an association list. *)
Definition analyzers : Type := list (string * analyzerObj).

Fixpoint audioLevelLoop (env : tickEnv) (m : analyzers) : analyzers * list notification :=
  match m with
  | [] => ([], [])
  | (memberId, obj) :: rest =>
      let '(obj', n1) := tick_member env memberId obj in
      let '(rest', n2) := audioLevelLoop env rest in
      ((memberId, obj') :: rest', n1 ++ n2)
  end.

(** Successive animation frames. *)
Fixpoint run_ticks (envs : list tickEnv) (m : analyzers) : analyzers * list notification :=
  match envs with
  | [] => (m, [])
  | env :: envs' =>
      let '(m1, n1) := audioLevelLoop env m in
      let '(m2, n2) := run_ticks envs' m1 in
      (m2, n1 ++ n2)
  end.

(** The average a member's tick computes, for stating hypotheses on it. *)
Definition tick_average (env : tickEnv) (memberId : string) (obj : analyzerObj) : num :=
  average (push_history (history obj) (computeRms (byteData env memberId))).

(** [speakerAnalyzers.get(memberId)] *)
Fixpoint lookup_member (memberId : string) (m : analyzers) : option analyzerObj :=
  match m with
  | [] => None
  | (k, obj) :: rest =>
      if String.eqb k memberId then Some obj else lookup_member memberId rest
  end.

(** One member followed through successive animation frames: the entry
    and the notifications, the averages computed and the states decided. *)
Fixpoint run_member (envs : list tickEnv) (memberId : string) (obj : analyzerObj)
  : analyzerObj * list notification :=
  match envs with
  | [] => (obj, [])
  | env :: envs' =>
      let '(obj1, n1) := tick_member env memberId obj in
      let '(obj2, n2) := run_member envs' memberId obj1 in
      (obj2, n1 ++ n2)
  end.

Fixpoint averages_member (envs : list tickEnv) (memberId : string) (obj : analyzerObj)
  : list num :=
  match envs with
  | [] => []
  | env :: envs' =>
      tick_average env memberId obj
        :: averages_member envs' memberId (tick_member env memberId obj).1
  end.

Fixpoint states_member (envs : list tickEnv) (memberId : string) (obj : analyzerObj)
  : list bool :=
  match envs with
  | [] => []
  | env :: envs' =>
      let obj1 := (tick_member env memberId obj).1 in
      speaking obj1 :: states_member envs' memberId obj1
  end.

(** The notifications that concern one member. *)
Definition notifications_for (memberId : string) (ns : list notification)
  : list notification :=
  List.filter (fun n => String.eqb n.1 memberId) ns.

(** The notifications expected from a sequence of states: one for each
    state that differs from the one before it. *)
Fixpoint changes (memberId : string) (prev : bool) (states : list bool)
  : list notification :=
  match states with
  | [] => []
  | s :: rest =>
      (if Bool.eqb s prev then [] else [(memberId, s)]) ++ changes memberId s rest
  end.

(** An animation frame in which every analyser delivers the same bytes. *)
Definition uniform_env (data : list Z) (loc : option string) (vad : num) : tickEnv :=
  {| byteData := fun _ => data; localMember := loc; latestVadValue := vad |}.

(** A member as [setupAudioLevel] registers it. *)
Definition registered : analyzerObj := {| history := []; speaking := false |}.

(** Bytes of a silent window, and of a window whose RMS is 1/32. *)
Definition silence : list Z := replicate 512 128.
Definition murmur : list Z := replicate 512 132.

(** *** Registration and shutdown *)

Inductive trackKind := AudioKind | VideoKind.

(** What [setupAudioLevel] finds around it: whether [ensureAudioContext]
    returns a context, and whether building the analyser graph raises. *)
Record setupEnv := {
  hasContext : bool;
  graphBuilds : bool;
}.

(** [speakerAnalyzers.has(memberId)] *)
Definition has_member (memberId : string) (m : analyzers) : bool :=
  match lookup_member memberId m with
  | Some _ => true
  | None => false
  end.

(** [setupAudioLevel(memberId, track)], with [track] absent or of a kind.
    A new key of a [Map] comes last in its order of visit. *)
Definition setupAudioLevel (env : setupEnv) (memberId : string)
           (track : option trackKind) (m : analyzers) : analyzers :=
  match track with
  | Some AudioKind =>
      if has_member memberId m then m
      else if negb (hasContext env) then m
      else if graphBuilds env
           then m ++ [(memberId, {| history := []; speaking := false |})]
           else m
  | _ => m
  end.

(** [stopAudioLevelMonitor]: [updateSpeakingVisual(memberId, false)] for
    every key, then [speakerAnalyzers.clear()]. *)
Definition stopAudioLevelMonitor (m : analyzers) : analyzers * list notification :=
  ([], (fun e : string * analyzerObj => (e.1, false)) <$> m).

(** What happens to the analyser map, one event at a time. *)
Inductive monitorEvent :=
| Register (env : setupEnv) (memberId : string) (track : option trackKind)
| Frame (env : tickEnv)
| Stop.

Definition monitor_step (m : analyzers) (ev : monitorEvent) : analyzers :=
  match ev with
  | Register env memberId track => setupAudioLevel env memberId track m
  | Frame env => (audioLevelLoop env m).1
  | Stop => (stopAudioLevelMonitor m).1
  end.

Definition monitor_run (evs : list monitorEvent) : analyzers :=
  foldl monitor_step [] evs.

(** [n] states, each the opposite of the one before it, after [b]. *)
Fixpoint alternating (b : bool) (n : nat) : list bool :=
  match n with
  | O => []
  | S n' => negb b :: alternating (negb b) n'
  end.

(** The RMS values a member's analyser gives over successive frames. *)
Definition rms_values (envs : list tickEnv) (memberId : string) : list num :=
  (fun env => computeRms (byteData env memberId)) <$> envs.

End Detector.

(** ** The AudioWorklet processor ([RnnoiseProcessor]) *)

Module Worklet.

Import Js.
Local Open Scope nat_scope.

(** An element of a [Float32Array], read as a number. *)
Definition sample : Type := num.

Inductive js_error := RangeError.

(** How a call ends: it returns, it raises, or it never returns. *)
Inductive outcome (A : Type) : Type :=
| Returns (a : A)
| Throws (e : js_error)
| Hangs.
Arguments Returns {A} a.
Arguments Throws {A} e.
Arguments Hangs {A}.

Definition bind {A B : Type} (m : outcome A) (k : A -> outcome B) : outcome B :=
  match m with
  | Returns a => k a
  | Throws e => Throws e
  | Hangs => Hangs
  end.

Notation "'do' x <- m ; k" := (bind m (fun x => k))
  (at level 10, x name, m at level 100, k at level 200).
Notation "'do' ' pat <- m ; k" := (bind m (fun x => let 'pat := x in k))
  (at level 10, pat pattern, m at level 100, k at level 200).

(** The largest length [new Float32Array] accepts: what the engine
    allocates, [max_length], and in no engine more than 2^53 - 1, above
    which the conversion of the length to an index raises already. *)
Definition length_limit (max_length : N) : Z :=
  (Z.of_N max_length `min` 9007199254740991)%Z.

(** [new Float32Array(n)] for an integer [n]: zeros, unless the length
    is negative or above the limit, and then the allocation raises. *)
Definition new_Float32Array (max_length : N) (n : Z) : outcome (list sample) :=
  if ((n <? 0) || (length_limit max_length <? n))%Z then Throws RangeError
  else Returns (replicate (Z.to_nat n) zero).

(** [target.set(src, offset)]: a source that does not fit raises. *)
Definition ta_set (target src : list sample) (offset : nat) : outcome (list sample) :=
  if length target <? offset + length src then Throws RangeError
  else Returns (take offset target ++ src ++ drop (offset + length src) target).

(** [for (let i = from; i < a.length; i++) a[i] = g(i)] *)
Definition assign_from (g : nat -> sample) (from : nat) (a : list sample) : list sample :=
  foldl (fun acc i => <[i := g i]> acc) a (seq from (length a - from)).

(** The message [{ type: 'vad', value }] handed to [port.postMessage]. *)
Inductive message := VadMessage (value : num).

Section Processor.

(** The denoise state object and its [processFrame] method, which
    writes into the frame it is given and returns the VAD score or
    raises, and may change the object either way. *)
Variable D : Type.

Inductive frame_result :=
| Denoised (d : D) (written : list sample) (vad : num)
| Failed (d : D) (written : list sample).

Variable processFrame : D -> list sample -> frame_result.

Record processorOptions := {
  denoiseState : option D;
  opt_frameSize : option Z;
  opt_vadInterval : option Z;
}.

Record processor := {
  state : option D;
  frameSize : Z;
  vadInterval : Z;
  buf : list sample;
  work : list sample;
  frameCounter : Z;
}.

(** The constructor: defaults for missing keys, no check of the
    values; the two allocations raise what [new Float32Array] raises. *)
Definition constructor (max_length : N) (options : option processorOptions)
  : outcome processor :=
  let po := default {| denoiseState := None; opt_frameSize := None;
                       opt_vadInterval := None |} options in
  let fs := default 480%Z (opt_frameSize po) in
  let vi := default 10%Z (opt_vadInterval po) in
  do buf0 <- new_Float32Array max_length 0;
  do work0 <- new_Float32Array max_length fs;
  Returns {| state := denoiseState po; frameSize := fs; vadInterval := vi;
             buf := buf0; work := work0; frameCounter := 0%Z |}.

(** The transform writes in place: the frame keeps its length. *)
Definition overwrite (frame written : list sample) : list sample :=
  take (length frame) written ++ drop (length written) frame.

(** The catch block: [work[i] = buf[i] || 0] for every index of [work]. *)
Definition restore (frame buffer : list sample) : list sample :=
  imap (fun i _ => or_zero (buffer !! i)) frame.

(** The try/catch around [processFrame]: the new denoise state, the
    new contents of [work] and the value of [vad]. A missing state
    object makes the method call raise inside the [try]. *)
Definition transform_frame (d : option D) (frame buffer : list sample)
  : option D * list sample * num :=
  match d with
  | Some d0 =>
      match processFrame d0 frame with
      | Denoised d1 w vad => (Some d1, overwrite frame w, vad)
      | Failed d1 w => (Some d1, restore (overwrite frame w) buffer, zero)
      end
  | None => (None, restore frame buffer, zero)
  end.

(** One pass through the body of the [while] loop. *)
Definition frame_body (p : processor) (outCh0 : list sample) (outIndex : nat)
  : outcome (processor * list sample * nat * list message) :=
  let fs := Z.to_nat (frameSize p) in
  do work1 <- ta_set (work p) (take fs (buf p)) 0;
  let '(d', work2, vad) := transform_frame (state p) work1 (buf p) in
  let copyLen := length work2 `min` (length outCh0 - outIndex) in
  do out' <- ta_set outCh0 (take copyLen work2) outIndex;
  let counter := (frameCounter p + 1)%Z in
  Returns ({| state := d'; frameSize := frameSize p; vadInterval := vadInterval p;
              buf := drop fs (buf p); work := work2; frameCounter := counter |},
           out', outIndex + copyLen,
           if rem_is_zero counter (vadInterval p) then [VadMessage vad] else []).

Definition loop_condition (p : processor) (outCh0 : list sample) (outIndex : nat) : bool :=
  (frameSize p <=? Z.of_nat (length (buf p)))%Z && (outIndex <? length outCh0).

(** The [while] loop; the fuel bounds the number of passes, and a loop
    that wants one more pass than the fuel allows is reported as
    [Hangs]. *)
Fixpoint frame_loop (fuel : nat) (p : processor) (outCh0 : list sample)
         (outIndex : nat) (posts : list message)
  : outcome (processor * list sample * nat * list message) :=
  if loop_condition p outCh0 outIndex then
    match fuel with
    | O => Hangs
    | S fuel' =>
        do '(p', out', outIndex', ms) <- frame_body p outCh0 outIndex;
        frame_loop fuel' p' out' outIndex' (posts ++ ms)
    end
  else Returns (p, outCh0, outIndex, posts).

(** What a call of [process] does besides changing the processor:
    the channels of [outputs[0]] afterwards, the messages posted, and
    [outIndex] when the loop is left (the number of samples copied
    from frames; 0 on the paths that do not reach the loop). *)
Record effects := {
  channels : list (list sample);
  posted : list message;
  copied : nat;
}.

(** [process(inputs, outputs)], with [input = inputs[0]] either absent
    or a list of channels and [output = outputs[0]] a list of
    channels. With a positive frame size every pass removes at least
    one sample from the buffer, so one pass per buffered sample is
    fuel enough. *)
Definition process (p : processor) (input : option (list (list sample)))
           (output : list (list sample)) : outcome (processor * effects) :=
  match input with
  | None | Some [] =>
      let output' :=
        match output with
        | [] => []
        | o :: rest => replicate (length o) zero :: rest
        end in
      Returns (p, {| channels := output'; posted := []; copied := 0 |})
  | Some (inCh0 :: _) =>
      match output with
      | [] => Returns (p, {| channels := []; posted := []; copied := 0 |})
      | outCh0 :: rest =>
          match state p with
          | None =>
              let out := assign_from (fun i => or_zero (inCh0 !! i)) 0 outCh0 in
              Returns (p, {| channels := out :: rest; posted := []; copied := 0 |})
          | Some _ =>
              let concatenated := buf p ++ inCh0 in
              let p1 := {| state := state p; frameSize := frameSize p;
                           vadInterval := vadInterval p; buf := concatenated;
                           work := work p; frameCounter := frameCounter p |} in
              do '(p2, out2, outIndex, posts) <-
                 frame_loop (length concatenated) p1 outCh0 0 [];
              let out := assign_from (fun _ => zero) outIndex out2 in
              Returns (p2, {| channels := out :: rest; posted := posts;
                              copied := outIndex |})
          end
      end
  end.

(** Successive calls on the same processor. *)
Definition call : Type := option (list (list sample)) * list (list sample).

Fixpoint run (p : processor) (calls : list call) : outcome (processor * list effects) :=
  match calls with
  | [] => Returns (p, [])
  | (input, output) :: calls' =>
      do '(p1, e) <- process p input output;
      do '(p2, es) <- run p1 calls';
      Returns (p2, e :: es)
  end.

(** *** Specification of the frame loop *)

(** The transform applied to the first [k] consecutive frames of
    [fs] samples of a stream: the denoise state afterwards and, frame by
    frame, the samples left in [work] and the value of [vad]. *)
Fixpoint framewise (k fs : nat) (d : option D) (stream : list sample)
  : option D * list (list sample * num) :=
  match k with
  | O => (d, [])
  | S k' =>
      let '(d1, w, vad) := transform_frame d (take fs stream) stream in
      let '(d2, rest) := framewise k' fs d1 (drop fs stream) in
      (d2, (w, vad) :: rest)
  end.

(** The messages posted for frames with the given scores when the
    counter stands at [c] before the first of them. *)
Fixpoint posted_of (c interval : Z) (vads : list num) : list message :=
  match vads with
  | [] => []
  | vad :: rest =>
      (if rem_is_zero (c + 1) interval then [VadMessage vad] else [])
        ++ posted_of (c + 1) interval rest
  end.

(** A processor as the constructor builds it and [process] keeps it,
    with a positive frame size. *)
Definition wf (p : processor) : Prop :=
  (0 < frameSize p)%Z /\ length (work p) = Z.to_nat (frameSize p).

(** What the frame loop has done when it is left after [k] passes,
    started on processor [p] with [outIndex = oi]. *)
Definition loop_post (p : processor) (out : list sample) (oi : nat)
           (posts : list message) (k : nat)
           (r : processor * list sample * nat * list message) : Prop :=
  let fs := Z.to_nat (frameSize p) in
  let fw := framewise k fs (state p) (buf p) in
  state r.1.1.1 = fw.1
  /\ frameSize r.1.1.1 = frameSize p
  /\ vadInterval r.1.1.1 = vadInterval p
  /\ buf r.1.1.1 = drop (k * fs) (buf p)
  /\ length (work r.1.1.1) = length (work p)
  /\ frameCounter r.1.1.1 = (frameCounter p + Z.of_nat k)%Z
  /\ k * fs <= length (buf p)
  /\ r.1.2 = length out `min` (oi + k * fs)
  /\ (length (buf r.1.1.1) < fs \/ r.1.2 = length out)
  /\ (0 < k -> oi + (k - 1) * fs < length out)
  /\ length r.1.1.2 = length out
  /\ take r.1.2 r.1.1.2 = take oi out ++ take (length out - oi) (concat fw.2.*1)
  /\ r.2 = posts ++ posted_of (frameCounter p) (vadInterval p) fw.2.*2.

(** What a call of [process] that reaches the loop has done when [k]
    frames were processed in it. *)
Definition call_post (p : processor) (inCh0 outCh0 : list sample)
           (rest : list (list sample)) (k : nat) (r : processor * effects) : Prop :=
  let fs := Z.to_nat (frameSize p) in
  let stream := buf p ++ inCh0 in
  let fw := framewise k fs (state p) stream in
  state r.1 = fw.1
  /\ frameSize r.1 = frameSize p
  /\ vadInterval r.1 = vadInterval p
  /\ buf r.1 = drop (k * fs) stream
  /\ length (work r.1) = length (work p)
  /\ frameCounter r.1 = (frameCounter p + Z.of_nat k)%Z
  /\ k * fs <= length stream
  /\ copied r.2 = length outCh0 `min` (k * fs)
  /\ (length (buf r.1) < fs \/ copied r.2 = length outCh0)
  /\ (0 < k -> (k - 1) * fs < length outCh0)
  /\ channels r.2
     = (take (length outCh0) (concat fw.2.*1)
          ++ replicate (length outCh0 - k * fs) zero) :: rest
  /\ posted r.2 = posted_of (frameCounter p) (vadInterval p) fw.2.*2.

(** The samples a call appends to the buffer and the output capacity it
    offers to the loop: those of channel 0 when the call reaches the loop. *)
Definition fed (c : call) : list sample :=
  match c with
  | (Some (inCh0 :: _), _ :: _) => inCh0
  | _ => []
  end.

Definition capacity (c : call) : nat :=
  match c with
  | (Some (_ :: _), outCh0 :: _) => length outCh0
  | _ => 0
  end.

(** What a sequence of calls has done when [k] frames were processed in
    all. *)
Definition run_post (p : processor) (calls : list call) (k : nat)
           (r : processor * list effects) : Prop :=
  let fs := Z.to_nat (frameSize p) in
  let stream := buf p ++ concat (fed <$> calls) in
  let fw := framewise k fs (state p) stream in
  state r.1 = fw.1
  /\ frameSize r.1 = frameSize p
  /\ vadInterval r.1 = vadInterval p
  /\ buf r.1 = drop (k * fs) stream
  /\ length (work r.1) = length (work p)
  /\ frameCounter r.1 = (frameCounter p + Z.of_nat k)%Z
  /\ k * fs <= length stream
  /\ length r.2 = length calls
  /\ sum_list (copied <$> r.2) <= k * fs
  /\ sum_list (copied <$> r.2) <= sum_list (capacity <$> calls)
  /\ concat (posted <$> r.2) = posted_of (frameCounter p) (vadInterval p) fw.2.*2.

End Processor.

Arguments Denoised {D} d written vad.
Arguments Failed {D} d written.
Arguments denoiseState {D} p.
Arguments opt_frameSize {D} p.
Arguments opt_vadInterval {D} p.
Arguments state {D} p.
Arguments frameSize {D} p.
Arguments vadInterval {D} p.
Arguments buf {D} p.
Arguments work {D} p.
Arguments frameCounter {D} p.
Arguments constructor {D} max_length options.
Arguments transform_frame {D} processFrame d frame buffer.
Arguments frame_body {D} processFrame p outCh0 outIndex.
Arguments loop_condition {D} p outCh0 outIndex.
Arguments frame_loop {D} processFrame fuel p outCh0 outIndex posts.
Arguments process {D} processFrame p input output.
Arguments run {D} processFrame p calls.
Arguments framewise {D} processFrame k fs d stream.
Arguments wf {D} p.
Arguments loop_post {D} processFrame p out oi posts k r.
Arguments call_post {D} processFrame p inCh0 outCh0 rest k r.
Arguments run_post {D} processFrame p calls k r.

(** *** Transforms used in examples *)

(** A transform that leaves every frame as it is and scores it 0. *)
Definition untouched : unit -> list sample -> frame_result unit :=
  fun d frame => Denoised d frame zero.

(** A transform that raises on every frame, having written nothing. *)
Definition always_failing : unit -> list sample -> frame_result unit :=
  fun d _ => Failed d [].

(** A transform that counts the frames it is given and scores the
    [i]-th of them [f i], leaving the samples as they are. *)
Definition scripted (f : nat -> num) : nat -> list sample -> frame_result nat :=
  fun n frame => Denoised (S n) frame (f (S n)).

(** The transform that, where [processFrame] raises, returns instead the
    frame it was given with falsy samples as 0, and the score 0. *)
Definition recovered {D : Type} (processFrame : D -> list sample -> frame_result D)
  : D -> list sample -> frame_result D :=
  fun d frame =>
    match processFrame d frame with
    | Failed d' _ => Denoised d' (map (fun x => or_zero (Some x)) frame) zero
    | r => r
    end.

(** Options with a denoise state and the given sizes. *)
Definition options_with {D : Type} (d : D) (fs interval : option Z)
  : option (processorOptions D) :=
  Some {| denoiseState := Some d; opt_frameSize := fs; opt_vadInterval := interval |}.

(** Small integer samples. *)
Definition smp (z : Z) : sample := of_Z z.

(** A transform that notes the length of every frame it is given. *)
Definition recording : list nat -> list sample -> frame_result (list nat) :=
  fun log frame => Denoised (log ++ [length frame]) frame zero.

(** A processor with another interval. *)
Definition with_interval {D : Type} (interval : Z) (p : processor D) : processor D :=
  {| state := state p; frameSize := frameSize p; vadInterval := interval;
     buf := buf p; work := work p; frameCounter := frameCounter p |}.

(** What a call without input leaves in the output. *)
Definition silent_effects (output : list (list sample)) : effects :=
  {| channels := match output with
                 | [] => []
                 | o :: rest => replicate (length o) zero :: rest
                 end;
     posted := []; copied := 0 |}.

(** What a call leaves in the output when there is no denoise state. *)
Definition passthrough_effects (c : call) : effects :=
  match c with
  | (Some (inCh0 :: _), outCh0 :: rest) =>
      {| channels := (((fun x => or_zero (Some x)) <$> take (length outCh0) inCh0)
                        ++ replicate (length outCh0 - length inCh0) zero) :: rest;
         posted := []; copied := 0 |}
  | (Some (_ :: _), []) => {| channels := []; posted := []; copied := 0 |}
  | (_, output) => silent_effects output
  end.

(** *** What reaches the output *)

(** The passes of the loop in a call that offers [cap] output samples
    when [n] samples are buffered, the input of the call included: one
    for each whole frame buffered, until the output is full. *)
Definition passes (fs n cap : nat) : nat :=
  (n / fs) `min` ((cap + fs - 1) / fs).

(** The passes of each call of a sequence, [n] samples being buffered
    before the first of them. *)
Fixpoint passes_of (fs n : nat) (calls : list call) : list nat :=
  match calls with
  | [] => []
  | c :: calls' =>
      let k := passes fs (n + length (fed c)) (capacity c) in
      k :: passes_of fs (n + length (fed c) - k * fs) calls'
  end.

(** The output of a call with a denoise state whose frames, once
    transformed, hold [samples]: the first of them, as many as channel 0
    holds, and zeros after them. *)
Definition filled (c : call) (samples : list sample) : list (list sample) :=
  match c with
  | (Some (_ :: _), outCh0 :: rest) =>
      (take (length outCh0) samples
         ++ replicate (length outCh0 - length samples) zero) :: rest
  | (Some (_ :: _), []) => []
  | (_, output) => channels (silent_effects output)
  end.

(** The outputs of a sequence of calls that processes the transformed
    frames [frames], the first [k] of [ks] in the first call and so on. *)
Fixpoint written (frames : list (list sample)) (ks : list nat) (calls : list call)
  : list (list (list sample)) :=
  match ks, calls with
  | k :: ks', c :: calls' =>
      filled c (concat (take k frames)) :: written (drop k frames) ks' calls'
  | _, _ => []
  end.

(** The samples of channel 0 that a call copied from frames. *)
Definition from_frames (e : effects) : list sample :=
  take (copied e) (default [] (head (channels e))).

(** A transform that counts the frames it is given and raises on every
    second one, after it has overwritten the first sample; the other
    frames come back as 7s, with the score 1. *)
Definition faltering : nat -> list sample -> frame_result nat :=
  fun n frame =>
    if Nat.odd n then Failed (S n) [smp 9]
    else Denoised (S n) (replicate (length frame) (smp 7)) (smp 1).

(** A limit for the examples: 2^32 - 1 elements. *)
Definition example_max_length : N := 4294967295.

(** The processor the constructor builds from a denoise state [d] and a
    frame size, with the default interval. *)
Definition fresh {D : Type} (d : D) (fs : Z) : processor D :=
  {| state := Some d; frameSize := fs; vadInterval := 10%Z; buf := [];
     work := replicate (Z.to_nat fs) zero; frameCounter := 0%Z |}.

End Worklet.

(** ** The worklet seen from the main thread ([Noise_Suppression]) *)

Module Receiver.

Import Js Detector Worklet.

(** The [processorOptions] given to [new AudioWorkletNode]: the frame
    size of the RNNoise library and the interval 10; the denoise state
    is not among them. *)
Definition worklet_options {D : Type} (rnFrameSize : Z) : option (processorOptions D) :=
  Some {| denoiseState := None; opt_frameSize := Some rnFrameSize;
          opt_vadInterval := Some 10 |}.

(** The data of a message event. *)
Record eventData := {
  ev_type : string;
  ev_value : num;
}.

(** What the port delivers for a message of the processor. *)
Definition posted_data (m : message) : option eventData :=
  match m with
  | VadMessage v => Some {| ev_type := "vad"; ev_value := v |}
  end.

(** [rnnoiseNode.port.onmessage], acting on [latestVadValue]. *)
Definition onmessage (latestVadValue : num) (data : option eventData) : num :=
  match data with
  | Some d => if String.eqb (ev_type d) "vad" then ev_value d else latestVadValue
  | None => latestVadValue
  end.

(** The messages of the processor delivered in the order posted. *)
Definition deliver (latestVadValue : num) (ms : list message) : num :=
  foldl (fun latest m => onmessage latest (posted_data m)) latestVadValue ms.

End Receiver.

(** * Properties *)

Import Js Detector Worklet.

(** ** Comparison of numbers *)

Section NumberFacts.

Lemma SFcompare_antisym (x y : num) :
  SFcompare y x = option_map CompOpp (SFcompare x y).
Proof.
  destruct x as [sx | sx | | sx mx ex], y as [sy | sy | | sy my ey]; simpl;
    try reflexivity;
    try (destruct sx; reflexivity); try (destruct sy; reflexivity);
    try (destruct sx, sy; reflexivity).
  pose proof (Pos.compare_cont_antisym mx my Eq) as Hm. simpl in Hm.
  destruct sx, sy; simpl; try reflexivity.
  all: rewrite (Z.compare_antisym ey ex).
  all: destruct (ey ?= ex)%Z; simpl; try reflexivity.
  all: rewrite <- Hm; reflexivity.
Qed.

Lemma lt_not_ge (x y : num) : lt x y = true -> ge x y = false.
Proof.
  unfold lt, ge, SFltb, SFleb. rewrite (SFcompare_antisym x y).
  destruct (SFcompare x y) as [[| |] |]; simpl; congruence.
Qed.

Lemma lt_asym (x y : num) : lt x y = true -> lt y x = false.
Proof.
  unfold lt, SFltb. rewrite (SFcompare_antisym x y).
  destruct (SFcompare x y) as [[| |] |]; simpl; congruence.
Qed.

(** [a % b === 0] holds exactly when [b] is not 0 and divides [a]. *)
Lemma rem_is_zero_spec (a b : Z) :
  rem_is_zero a b = true <-> b <> 0 /\ (b | a).
Proof.
  unfold rem_is_zero, rem. destruct (Z.eqb_spec b 0) as [-> | Hb].
  - split; [discriminate | intros [H _]; congruence].
  - rewrite <- (Z.rem_divide a b Hb).
    destruct (Z.rem a b); split; intros H; try discriminate; try tauto;
      destruct H as [_ H]; discriminate.
Qed.

End NumberFacts.

(** ** The speaking detector *)

Section DetectorFacts.

Lemma tick_member_spec (env : tickEnv) (memberId : string) (obj : analyzerObj) :
  let next := decide_next (speaking obj) (tick_average env memberId obj)
                          (is_local env memberId) (latestVadValue env) in
  tick_member env memberId obj
  = ({| history := push_history (history obj) (computeRms (byteData env memberId));
        speaking := next |},
     if Bool.eqb next (speaking obj) then [] else [(memberId, next)]).
Proof.
  intros next. unfold tick_member. fold (tick_average env memberId obj). fold next.
  destruct (Bool.eqb next (speaking obj)) eqn:Heq; [| reflexivity].
  apply Bool.eqb_prop in Heq. rewrite Heq. reflexivity.
Qed.

Lemma rms_rule_dead_zone (prev : bool) (avg : num) :
  lt speakingThresholdOff avg = true -> lt avg speakingThresholdOn = true ->
  rms_rule prev avg = prev.
Proof.
  intros Hoff Hon. unfold rms_rule.
  rewrite (lt_not_ge _ _ Hon), (lt_asym _ _ Hoff).
  destruct prev; reflexivity.
Qed.

Lemma vad_rule_no_promotion (isLocal : bool) (vad : num) (next : bool) :
  isLocal = false \/ ge vad vadSpeakingThreshold = false ->
  vad_rule isLocal vad next = next.
Proof.
  unfold vad_rule. intros [-> | ->]; [reflexivity |].
  destruct isLocal, next; reflexivity.
Qed.

Lemma vad_rule_never_demotes (isLocal : bool) (vad : num) :
  vad_rule isLocal vad true = true.
Proof. unfold vad_rule. destruct isLocal; reflexivity. Qed.

Lemma audioLevelLoop_keys (env : tickEnv) (m : analyzers) :
  (audioLevelLoop env m).1.*1 = m.*1.
Proof.
  induction m as [| [k obj] m IH]; [reflexivity |].
  cbn [audioLevelLoop]. destruct (tick_member env k obj) as [obj' n1].
  destruct (audioLevelLoop env m) as [rest' n2]. cbn [fst] in *.
  rewrite !fmap_cons, IH. reflexivity.
Qed.

Lemma audioLevelLoop_lookup (env : tickEnv) (memberId : string) (m : analyzers) :
  lookup_member memberId (audioLevelLoop env m).1
  = (fun obj => (tick_member env memberId obj).1) <$> lookup_member memberId m.
Proof.
  induction m as [| [k obj] m IH]; [reflexivity |].
  cbn [audioLevelLoop]. destruct (tick_member env k obj) as [obj' n1] eqn:Htick.
  destruct (audioLevelLoop env m) as [rest' n2]. cbn [fst lookup_member] in *.
  destruct (String.eqb_spec k memberId) as [-> | Hne].
  - simpl. rewrite Htick. reflexivity.
  - exact IH.
Qed.

Lemma run_member_cons (env : tickEnv) (envs : list tickEnv) (memberId : string)
      (obj : analyzerObj) :
  (run_member (env :: envs) memberId obj).1
  = (run_member envs memberId (tick_member env memberId obj).1).1.
Proof.
  cbn [run_member]. destruct (tick_member env memberId obj) as [obj1 n1].
  cbn [fst]. destruct (run_member envs memberId obj1). reflexivity.
Qed.

Lemma run_ticks_lookup (envs : list tickEnv) (memberId : string) :
  forall m : analyzers,
    lookup_member memberId (run_ticks envs m).1
    = (fun obj => (run_member envs memberId obj).1) <$> lookup_member memberId m.
Proof.
  induction envs as [| env envs IH]; intros m.
  - simpl. destruct (lookup_member memberId m); reflexivity.
  - cbn [run_ticks]. pose proof (audioLevelLoop_lookup env memberId m) as Hstep.
    destruct (audioLevelLoop env m) as [m1 n1]. specialize (IH m1).
    destruct (run_ticks envs m1) as [m2 n2]. cbn [fst] in *.
    rewrite IH, Hstep. destruct (lookup_member memberId m) as [obj |]; [| reflexivity].
    cbn [fmap option_fmap option_map]. rewrite run_member_cons. reflexivity.
Qed.

Lemma notifications_for_app (memberId : string) (n1 n2 : list notification) :
  notifications_for memberId (n1 ++ n2)
  = notifications_for memberId n1 ++ notifications_for memberId n2.
Proof. unfold notifications_for. apply List.filter_app. Qed.

Lemma tick_member_notifications (env : tickEnv) (k memberId : string) (obj : analyzerObj) :
  notifications_for memberId (tick_member env k obj).2
  = if String.eqb k memberId then (tick_member env k obj).2 else [].
Proof.
  rewrite tick_member_spec. cbv zeta. cbn [snd].
  destruct (Bool.eqb _ _); simpl.
  - destruct (String.eqb k memberId); reflexivity.
  - destruct (String.eqb k memberId); reflexivity.
Qed.

Lemma audioLevelLoop_absent (env : tickEnv) (memberId : string) (m : analyzers) :
  lookup_member memberId m = None ->
  notifications_for memberId (audioLevelLoop env m).2 = [].
Proof.
  induction m as [| [k obj] m IH]; intros Hnone; [reflexivity |].
  cbn [audioLevelLoop lookup_member] in *.
  pose proof (tick_member_notifications env k memberId obj) as Hn.
  destruct (tick_member env k obj) as [obj' n1].
  destruct (audioLevelLoop env m) as [rest' n2]. cbn [snd] in *.
  destruct (String.eqb k memberId); [discriminate |].
  rewrite notifications_for_app, Hn, IH by exact Hnone. reflexivity.
Qed.

Lemma lookup_member_absent (memberId : string) (m : analyzers) :
  memberId ∉ m.*1 -> lookup_member memberId m = None.
Proof.
  induction m as [| [k obj] m IH]; intros Hnot; [reflexivity |].
  cbn [lookup_member]. rewrite fmap_cons in Hnot. cbn [fst] in Hnot.
  apply not_elem_of_cons in Hnot as [Hne Hrest].
  destruct (String.eqb_spec k memberId) as [-> | _]; [congruence | apply IH, Hrest].
Qed.

Lemma audioLevelLoop_notifications (env : tickEnv) (memberId : string) (m : analyzers)
      (obj : analyzerObj) :
  NoDup m.*1 -> lookup_member memberId m = Some obj ->
  notifications_for memberId (audioLevelLoop env m).2 = (tick_member env memberId obj).2.
Proof.
  induction m as [| [k o] m IH]; intros Hnodup Hlook; [discriminate |].
  rewrite fmap_cons in Hnodup. cbn [fst] in Hnodup.
  apply NoDup_cons in Hnodup as [Hfresh Hnodup].
  cbn [audioLevelLoop lookup_member] in *.
  pose proof (tick_member_notifications env k memberId o) as Hn.
  pose proof (audioLevelLoop_absent env memberId m) as Habs.
  destruct (tick_member env k o) as [o' n1] eqn:Htick.
  destruct (audioLevelLoop env m) as [rest' n2]. cbn [snd] in *.
  rewrite notifications_for_app, Hn.
  destruct (String.eqb_spec k memberId) as [-> | Hne].
  - injection Hlook as <-. rewrite Htick.
    rewrite Habs by (apply lookup_member_absent, Hfresh). apply app_nil_r.
  - apply IH; assumption.
Qed.

Lemma run_ticks_notifications (envs : list tickEnv) (memberId : string) :
  forall (m : analyzers) (obj : analyzerObj),
    NoDup m.*1 -> lookup_member memberId m = Some obj ->
    notifications_for memberId (run_ticks envs m).2 = (run_member envs memberId obj).2.
Proof.
  induction envs as [| env envs IH]; intros m obj Hnodup Hlook; [reflexivity |].
  cbn [run_ticks run_member].
  pose proof (audioLevelLoop_notifications env memberId m obj Hnodup Hlook) as Hn.
  pose proof (audioLevelLoop_lookup env memberId m) as Hl.
  pose proof (audioLevelLoop_keys env m) as Hk.
  destruct (audioLevelLoop env m) as [m1 n1]. cbn [fst snd] in *.
  rewrite Hlook in Hl. simpl in Hl.
  destruct (tick_member env memberId obj) as [obj1 k1]. cbn [fst snd] in *.
  specialize (IH m1 obj1 ltac:(rewrite Hk; exact Hnodup) Hl).
  destruct (run_ticks envs m1) as [m2 n2].
  destruct (run_member envs memberId obj1) as [obj2 k2]. cbn [snd] in *.
  rewrite notifications_for_app, Hn, IH. reflexivity.
Qed.

Lemma run_member_changes (envs : list tickEnv) (memberId : string) :
  forall obj : analyzerObj,
    (run_member envs memberId obj).2
    = changes memberId (speaking obj) (states_member envs memberId obj).
Proof.
  induction envs as [| env envs IH]; intros obj; [reflexivity |].
  cbn [run_member states_member changes].
  specialize (IH (tick_member env memberId obj).1).
  rewrite (tick_member_spec env memberId obj) in *. cbv zeta in *. cbn [fst speaking] in *.
  destruct (run_member envs memberId _) as [obj2 k2]. cbn [snd] in *.
  rewrite IH. reflexivity.
Qed.

Lemma changes_constant (memberId : string) (prev : bool) (states : list bool) :
  Forall (fun s => s = prev) states -> changes memberId prev states = [].
Proof.
  induction 1 as [| s states -> _ IH]; [reflexivity |].
  simpl. rewrite Bool.eqb_reflx. exact IH.
Qed.

Lemma run_member_states (envs : list tickEnv) (memberId : string) :
  forall obj : analyzerObj,
    Forall (fun s => s = speaking obj) (states_member envs memberId obj) ->
    speaking (run_member envs memberId obj).1 = speaking obj.
Proof.
  induction envs as [| env envs IH]; intros obj Hall; [reflexivity |].
  cbn [run_member states_member] in *.
  apply Forall_cons in Hall as [Hhead Hrest].
  specialize (IH (tick_member env memberId obj).1).
  destruct (tick_member env memberId obj) as [obj1 n1]. cbn [fst] in *.
  destruct (run_member envs memberId obj1) as [obj2 n2]. cbn [fst] in *.
  rewrite <- Hhead. apply IH. rewrite Hhead. exact Hrest.
Qed.

(** C7: whatever state a member starts in, as long as the average
    computed at each tick lies strictly between [speakingThresholdOff]
    and [speakingThresholdOn] and the VAD reinforcement does not apply
    (the member is not the local one, or the latest VAD value is below
    the VAD threshold), no number of ticks changes the speaking state. *)
Theorem dead_zone_keeps_state (envs : list tickEnv) (m : analyzers) (memberId : string)
        (obj : analyzerObj) :
  lookup_member memberId m = Some obj ->
  Forall (fun a => lt speakingThresholdOff a = true /\ lt a speakingThresholdOn = true)
         (averages_member envs memberId obj) ->
  Forall (fun env => is_local env memberId = false
                     \/ ge (latestVadValue env) vadSpeakingThreshold = false) envs ->
  Forall (fun s => s = speaking obj) (states_member envs memberId obj)
  /\ exists obj', lookup_member memberId (run_ticks envs m).1 = Some obj'
                  /\ speaking obj' = speaking obj.
Proof.
  intros Hlook Havg Hvad.
  assert (Hstates : Forall (fun s => s = speaking obj) (states_member envs memberId obj)).
  { clear Hlook. revert obj Havg.
    induction Hvad as [| env envs Hv _ IH]; intros obj Havg; [constructor |].
    cbn [averages_member states_member] in *.
    apply Forall_cons in Havg as [[Hoff Hon] Hrest].
    assert (Hnext : speaking (tick_member env memberId obj).1 = speaking obj).
    { rewrite tick_member_spec. cbv zeta. cbn [fst speaking]. unfold decide_next.
      rewrite (rms_rule_dead_zone _ _ Hoff Hon). apply vad_rule_no_promotion, Hv. }
    constructor; [exact Hnext |]. rewrite <- Hnext. apply IH, Hrest. }
  split; [exact Hstates |].
  exists (run_member envs memberId obj).1. split.
  - rewrite run_ticks_lookup, Hlook. reflexivity.
  - apply run_member_states, Hstates.
Qed.

(** C8: a member's tick notifies exactly when the state it decides
    differs from the state the member had before the tick; so over any
    sequence of ticks the notifications for a member are the changes of
    its state, and there is none while the decided state stays what it
    was. (The keys of the analyser map are distinct, as those of a
    [Map] are.) *)
Theorem notifications_only_on_change (envs : list tickEnv) (m : analyzers)
        (memberId : string) (obj : analyzerObj) :
  NoDup m.*1 -> lookup_member memberId m = Some obj ->
  (forall env,
      (tick_member env memberId obj).2
      = if Bool.eqb (speaking (tick_member env memberId obj).1) (speaking obj)
        then [] else [(memberId, speaking (tick_member env memberId obj).1)])
  /\ notifications_for memberId (run_ticks envs m).2
     = changes memberId (speaking obj) (states_member envs memberId obj)
  /\ (Forall (fun s => s = speaking obj) (states_member envs memberId obj) ->
      notifications_for memberId (run_ticks envs m).2 = []).
Proof.
  intros Hnodup Hlook.
  assert (Hrun : notifications_for memberId (run_ticks envs m).2
                 = changes memberId (speaking obj) (states_member envs memberId obj)).
  { rewrite (run_ticks_notifications envs memberId m obj Hnodup Hlook).
    apply run_member_changes. }
  split; [| split].
  - intros env. rewrite tick_member_spec. reflexivity.
  - exact Hrun.
  - intros Hconst. rewrite Hrun. apply changes_constant, Hconst.
Qed.

(** C3 (amended): for the local member, a tick whose average is 0 and
    whose latest VAD value is 0.8 makes the state Speaking; the next
    tick, with the average still 0 and the VAD value 0, makes it Quiet
    again, by the RMS rule ([0 < speakingThresholdOff]) of that same
    tick; the VAD step itself never turns Speaking into Quiet. *)
Theorem vad_promotes_rms_demotes (env1 env2 : tickEnv) (memberId : string)
        (obj : analyzerObj) :
  is_local env1 memberId = true -> is_local env2 memberId = true ->
  latestVadValue env1 = decimal 8 1 -> latestVadValue env2 = zero ->
  tick_average env1 memberId obj = zero ->
  tick_average env2 memberId (tick_member env1 memberId obj).1 = zero ->
  speaking (tick_member env1 memberId obj).1 = true
  /\ speaking (tick_member env2 memberId (tick_member env1 memberId obj).1).1 = false
  /\ (forall isLocal vad, vad_rule isLocal vad true = true).
Proof.
  intros Hl1 Hl2 Hv1 Hv2 Ha1 Ha2.
  assert (H1 : speaking (tick_member env1 memberId obj).1 = true).
  { rewrite tick_member_spec. cbv zeta. cbn [fst speaking].
    rewrite Ha1, Hl1, Hv1. destruct (speaking obj); reflexivity. }
  split; [exact H1 |]. split; [| apply vad_rule_never_demotes].
  rewrite (tick_member_spec env2). cbv zeta. cbn [fst speaking].
  rewrite Ha2, Hl2, Hv2, H1. reflexivity.
Qed.

End DetectorFacts.

(** ** Typed-array helpers *)

Section ArrayFacts.

Local Open Scope nat_scope.

Lemma length_limit_nonneg (max_length : N) : (0 <= length_limit max_length)%Z.
Proof. unfold length_limit. lia. Qed.

Lemma new_Float32Array_fits (max_length : N) (n : Z) :
  (0 <= n <= length_limit max_length)%Z ->
  new_Float32Array max_length n = Returns (replicate (Z.to_nat n) zero).
Proof.
  intros [H0 Hmax]. unfold new_Float32Array.
  destruct (Z.ltb_spec n 0) as [Hneg | _]; [lia |].
  destruct (Z.ltb_spec (length_limit max_length) n) as [Hbig | _]; [lia | reflexivity].
Qed.

Lemma new_Float32Array_raises (max_length : N) (n : Z) :
  (n < 0 \/ length_limit max_length < n)%Z ->
  new_Float32Array max_length n = Throws RangeError.
Proof.
  intros Hout. unfold new_Float32Array.
  destruct (Z.ltb_spec n 0) as [Hneg | Hnonneg]; [reflexivity |].
  destruct (Z.ltb_spec (length_limit max_length) n) as [Hbig | Hfits]; [reflexivity | lia].
Qed.

Lemma ta_set_fits (target src : list sample) (offset : nat) :
  offset + length src <= length target ->
  ta_set target src offset
  = Returns (take offset target ++ src ++ drop (offset + length src) target).
Proof.
  intros Hfit. unfold ta_set.
  destruct (Nat.ltb_spec (length target) (offset + length src)) as [Hlt | _].
  - lia.
  - reflexivity.
Qed.

Lemma ta_set_length (target src out : list sample) (offset : nat) :
  ta_set target src offset = Returns out -> length out = length target.
Proof.
  unfold ta_set.
  destruct (Nat.ltb_spec (length target) (offset + length src)) as [Hlt | Hle];
    intros Heq; [discriminate |].
  injection Heq as <-.
  rewrite !length_app, length_take, length_drop. lia.
Qed.

Lemma assign_step (g : nat -> sample) (n from : nat) (a : list sample) :
  from + n <= length a ->
  foldl (fun acc i => <[i := g i]> acc) a (seq from n)
  = take from a ++ map g (seq from n) ++ drop (from + n) a.
Proof.
  revert a from. induction n as [| n IH]; intros a from Hle; simpl.
  - rewrite Nat.add_0_r. symmetry. apply take_drop.
  - rewrite IH by (rewrite length_insert; lia).
    rewrite drop_insert_lt by lia.
    assert (Hsplit : take (S from) (<[from := g from]> a) = take from a ++ [g from]).
    { rewrite (take_S_r _ _ (g from)) by (apply list_lookup_insert_eq; lia).
      rewrite take_insert_ge by lia. reflexivity. }
    rewrite Hsplit, <- app_assoc.
    replace (S from + n) with (from + S n) by lia. reflexivity.
Qed.

Lemma assign_from_spec (g : nat -> sample) (from : nat) (a : list sample) :
  from <= length a ->
  assign_from g from a = take from a ++ map g (seq from (length a - from)).
Proof.
  intros Hle. unfold assign_from. rewrite assign_step by lia.
  rewrite drop_ge by lia. rewrite app_nil_r. reflexivity.
Qed.

Lemma zero_fill_spec (from : nat) (a : list sample) :
  from <= length a ->
  assign_from (fun _ => zero) from a = take from a ++ replicate (length a - from) zero.
Proof.
  intros Hle. rewrite assign_from_spec by exact Hle. f_equal.
  generalize (length a - from) as n. generalize from as k.
  intros k n. revert k. induction n as [| n IH]; intros k; simpl; [reflexivity |].
  f_equal. apply IH.
Qed.

End ArrayFacts.

(** ** The frame loop *)

Section ProcessorFacts.

Local Open Scope nat_scope.

Variable D : Type.
Variable processFrame : D -> list sample -> frame_result D.

(** The constructor returns when the frame size is one that
    [new Float32Array] accepts, and raises otherwise. *)
Lemma constructor_returns (max_length : N) (options : option (processorOptions D)) :
  let po := default {| denoiseState := None; opt_frameSize := None;
                       opt_vadInterval := None |} options in
  let fs := default 480%Z (opt_frameSize po) in
  let vi := default 10%Z (opt_vadInterval po) in
  (0 <= fs <= length_limit max_length)%Z ->
  constructor max_length options
  = Returns {| state := denoiseState po; frameSize := fs; vadInterval := vi;
               buf := []; work := replicate (Z.to_nat fs) zero;
               frameCounter := 0%Z |}.
Proof.
  intros po fs vi Hfs. unfold constructor.
  pose proof (length_limit_nonneg max_length) as Hlimit.
  rewrite (new_Float32Array_fits max_length 0) by lia. cbn [bind].
  rewrite new_Float32Array_fits by exact Hfs. reflexivity.
Qed.

Lemma constructor_raises (max_length : N) (options : option (processorOptions D)) :
  let po := default {| denoiseState := None; opt_frameSize := None;
                       opt_vadInterval := None |} options in
  let fs := default 480%Z (opt_frameSize po) in
  (fs < 0 \/ length_limit max_length < fs)%Z ->
  constructor max_length options = Throws RangeError.
Proof.
  intros po fs Hfs. unfold constructor.
  pose proof (length_limit_nonneg max_length) as Hlimit.
  rewrite (new_Float32Array_fits max_length 0) by lia. cbn [bind].
  rewrite new_Float32Array_raises by exact Hfs. reflexivity.
Qed.

Lemma overwrite_length (frame written : list sample) :
  length (overwrite frame written) = length frame.
Proof.
  unfold overwrite. rewrite length_app, length_take, length_drop. lia.
Qed.

Lemma restore_length (frame buffer : list sample) :
  length (restore frame buffer) = length frame.
Proof. unfold restore. apply length_imap. Qed.

Lemma restore_spec (frame buffer : list sample) :
  length frame <= length buffer ->
  restore frame buffer = map (fun x => or_zero (Some x)) (take (length frame) buffer).
Proof.
  intros Hle. apply list_eq. intros i. unfold restore.
  rewrite list_lookup_imap, list_lookup_fmap.
  destruct (Nat.lt_ge_cases i (length frame)) as [Hlt | Hge].
  - rewrite lookup_take_lt by exact Hlt.
    destruct (lookup_lt_is_Some_2 frame i Hlt) as [x Hx].
    destruct (lookup_lt_is_Some_2 buffer i ltac:(lia)) as [y Hy].
    unfold sample in *. rewrite Hx. simpl. rewrite Hy. reflexivity.
  - rewrite lookup_take_ge by exact Hge.
    rewrite (lookup_ge_None_2 frame i Hge). reflexivity.
Qed.

Lemma transform_frame_length (d : option D) (frame buffer : list sample) :
  length (transform_frame processFrame d frame buffer).1.2 = length frame.
Proof.
  unfold transform_frame. destruct d as [d0 |]; simpl.
  - destruct (processFrame d0 frame) as [d1 w vad | d1 w]; simpl.
    + apply overwrite_length.
    + rewrite restore_length. apply overwrite_length.
  - apply restore_length.
Qed.

Lemma transform_frame_keeps_state (d : option D) (frame buffer : list sample) :
  is_Some d -> is_Some (transform_frame processFrame d frame buffer).1.1.
Proof.
  intros [d0 ->]. unfold transform_frame.
  destruct (processFrame d0 frame); simpl; eauto.
Qed.

(** One pass of the loop on a well-formed processor: nothing raises. *)
Lemma frame_body_spec (p : processor D) (out : list sample) (oi : nat) :
  wf p -> loop_condition p out oi = true ->
  let fs := Z.to_nat (frameSize p) in
  let t := transform_frame processFrame (state p) (take fs (buf p)) (buf p) in
  let copyLen := fs `min` (length out - oi) in
  frame_body processFrame p out oi
  = Returns ({| state := t.1.1; frameSize := frameSize p; vadInterval := vadInterval p;
                buf := drop fs (buf p); work := t.1.2;
                frameCounter := (frameCounter p + 1)%Z |},
             take oi out ++ take copyLen t.1.2 ++ drop (oi + copyLen) out,
             oi + copyLen,
             if rem_is_zero (frameCounter p + 1) (vadInterval p)
             then [VadMessage t.2] else []).
Proof.
  intros [Hpos Hwork] Hcond fs t copyLen.
  unfold loop_condition in Hcond. apply andb_true_iff in Hcond as [Hbuf Hout].
  apply Z.leb_le in Hbuf. apply Nat.ltb_lt in Hout.
  assert (Hfs : fs <= length (buf p)) by (unfold fs; lia).
  unfold frame_body. fold fs.
  rewrite ta_set_fits by (rewrite length_take; lia).
  simpl bind.
  assert (Hwork1 : take fs (buf p) ++ drop (length (take fs (buf p))) (work p)
                   = take fs (buf p)).
  { rewrite length_take. rewrite (drop_ge (work p)) by lia. apply app_nil_r. }
  rewrite Hwork1. fold t.
  assert (Hlen : length t.1.2 = fs).
  { unfold t. rewrite transform_frame_length, length_take. lia. }
  destruct t as [[d' w] vad] eqn:Ht. simpl in Hlen |- *.
  rewrite Hlen. fold copyLen.
  rewrite ta_set_fits by (rewrite length_take; lia).
  simpl bind. rewrite length_take.
  replace (copyLen `min` length w) with copyLen by lia.
  reflexivity.
Qed.

Lemma framewise_succ (k fs : nat) (d : option D) (stream : list sample) :
  framewise processFrame (S k) fs d stream
  = let t := transform_frame processFrame d (take fs stream) stream in
    let fw := framewise processFrame k fs t.1.1 (drop fs stream) in
    (fw.1, (t.1.2, t.2) :: fw.2).
Proof.
  simpl. destruct (transform_frame processFrame d (take fs stream) stream) as [[d1 w] vad].
  simpl. destruct (framewise processFrame k fs d1 (drop fs stream)) as [d2 rest].
  reflexivity.
Qed.

Lemma loop_condition_true (p : processor D) (out : list sample) (oi : nat) :
  loop_condition p out oi = true <->
  (frameSize p <= Z.of_nat (length (buf p)))%Z /\ oi < length out.
Proof.
  unfold loop_condition. rewrite andb_true_iff, Z.leb_le, Nat.ltb_lt. reflexivity.
Qed.

Lemma loop_condition_false (p : processor D) (out : list sample) (oi : nat) :
  loop_condition p out oi = false <->
  (Z.of_nat (length (buf p)) < frameSize p)%Z \/ length out <= oi.
Proof.
  unfold loop_condition. rewrite andb_false_iff, Z.leb_gt, Nat.ltb_ge. reflexivity.
Qed.

Lemma loop_post_exit (p : processor D) (out : list sample) (oi : nat)
      (posts : list message) :
  wf p -> oi <= length out -> loop_condition p out oi = false ->
  loop_post processFrame p out oi posts 0 (p, out, oi, posts).
Proof.
  intros [Hpos Hwork] Hoi Hcond. apply loop_condition_false in Hcond.
  unfold loop_post. simpl.
  repeat split; try reflexivity; try lia.
  - rewrite take_nil, app_nil_r. reflexivity.
  - rewrite app_nil_r. reflexivity.
Qed.

Lemma loop_post_step (p : processor D) (out : list sample) (oi : nat)
      (posts : list message) (k : nat)
      (r : processor D * list sample * nat * list message) :
  wf p -> oi <= length out -> loop_condition p out oi = true ->
  let fs := Z.to_nat (frameSize p) in
  let t := transform_frame processFrame (state p) (take fs (buf p)) (buf p) in
  let copyLen := fs `min` (length out - oi) in
  loop_post processFrame
    {| state := t.1.1; frameSize := frameSize p; vadInterval := vadInterval p;
       buf := drop fs (buf p); work := t.1.2;
       frameCounter := (frameCounter p + 1)%Z |}
    (take oi out ++ take copyLen t.1.2 ++ drop (oi + copyLen) out)
    (oi + copyLen)
    (posts ++ (if rem_is_zero (frameCounter p + 1) (vadInterval p)
               then [VadMessage t.2] else []))
    k r ->
  loop_post processFrame p out oi posts (S k) r.
Proof.
  intros [Hpos Hwork] Hoi Hcond fs t copyLen.
  apply loop_condition_true in Hcond as [Hbuf Hout].
  assert (Hfs : fs <= length (buf p)) by (unfold fs; lia).
  assert (Hfs0 : 0 < fs) by (unfold fs; lia).
  assert (Hw : length t.1.2 = fs).
  { unfold t. rewrite transform_frame_length, length_take. lia. }
  assert (Hout1 : length (take oi out ++ take copyLen t.1.2 ++ drop (oi + copyLen) out)
                  = length out).
  { rewrite !length_app, !length_take, length_drop. lia. }
  unfold loop_post. rewrite framewise_succ. fold fs. fold t.
  cbn [state frameSize vadInterval buf work frameCounter fst snd].
  fold fs. rewrite Hout1.
  set (fw := framewise processFrame k fs t.1.1 (drop fs (buf p))).
  intros (Hst & Hfsz & Hvi & Hb & Hwk & Hc & Hk & Hidx & Hexit & Hlast & Hlen & Htake & Hposts).
  rewrite length_drop in Hk.
  repeat split.
  - exact Hst.
  - exact Hfsz.
  - exact Hvi.
  - rewrite Hb, drop_drop. f_equal; lia.
  - lia.
  - lia.
  - lia.
  - lia.
  - destruct Hexit as [Hshort | Hfull]; [left; exact Hshort | right; lia].
  - intros _. destruct k as [| k]; [simpl; lia |].
    specialize (Hlast ltac:(lia)). simpl in Hlast |- *. lia.
  - exact Hlen.
  - rewrite Htake. rewrite fmap_cons, concat_cons. cbn [fst].
    rewrite app_assoc, take_app_length'
      by (rewrite length_app, !length_take; lia).
    rewrite <- app_assoc. f_equal.
    rewrite (take_app t.1.2), Hw. f_equal.
    + unfold copyLen. destruct (Nat.le_gt_cases fs (length out - oi)) as [Hle | Hgt].
      * rewrite Nat.min_l by exact Hle. rewrite !take_ge by lia. reflexivity.
      * rewrite Nat.min_r by lia. reflexivity.
    + f_equal. lia.
  - rewrite Hposts, fmap_cons. cbn [snd posted_of]. rewrite <- app_assoc. reflexivity.
Qed.

(** The loop terminates on a well-formed processor without raising, and
    its result is the one [loop_post] describes. *)
Lemma frame_loop_spec (fuel : nat) :
  forall (p : processor D) (out : list sample) (oi : nat) (posts : list message),
    wf p -> oi <= length out -> length (buf p) <= fuel ->
    exists k r,
      frame_loop processFrame fuel p out oi posts = Returns r
      /\ loop_post processFrame p out oi posts k r.
Proof.
  induction fuel as [| fuel IH]; intros p out oi posts Hwf Hoi Hfuel.
  all: destruct (loop_condition p out oi) eqn:Hcond.
  - apply loop_condition_true in Hcond. destruct Hwf. lia.
  - exists 0, (p, out, oi, posts). split.
    + simpl. rewrite Hcond. reflexivity.
    + apply loop_post_exit; assumption.
  - pose proof (frame_body_spec p out oi Hwf Hcond) as Hbody.
    pose proof (loop_post_step p out oi posts) as Hstep.
    cbv zeta in Hbody, Hstep.
    set (fs := Z.to_nat (frameSize p)) in *.
    set (t := transform_frame processFrame (state p) (take fs (buf p)) (buf p)) in *.
    set (copyLen := fs `min` (length out - oi)) in *.
    pose proof Hcond as Hc. apply loop_condition_true in Hc as [Hbuf Hout].
    destruct Hwf as [Hpos Hwork].
    assert (Hw : length t.1.2 = fs).
    { unfold t. rewrite transform_frame_length, length_take. lia. }
    destruct (IH {| state := t.1.1; frameSize := frameSize p;
                    vadInterval := vadInterval p; buf := drop fs (buf p);
                    work := t.1.2; frameCounter := (frameCounter p + 1)%Z |}
                 (take oi out ++ take copyLen t.1.2 ++ drop (oi + copyLen) out)
                 (oi + copyLen)
                 (posts ++ (if rem_is_zero (frameCounter p + 1) (vadInterval p)
                            then [VadMessage t.2] else [])))
      as (k & r & Hrun & Hpost).
    + split; cbn [frameSize work]; [exact Hpos | exact Hw].
    + rewrite !length_app, !length_take, length_drop. lia.
    + cbn [buf]. rewrite length_drop. lia.
    + exists (S k), r. split.
      * simpl. rewrite Hcond, Hbody. simpl. exact Hrun.
      * apply Hstep; [split; assumption | assumption | assumption | exact Hpost].
  - exists 0, (p, out, oi, posts). split.
    + simpl. rewrite Hcond. reflexivity.
    + apply loop_post_exit; assumption.
Qed.

(** A call with an input channel, an output channel and a denoise
    state returns, and [call_post] describes what it did. *)
Lemma process_spec (p : processor D) (inCh0 outCh0 : list sample)
      (ins rest : list (list sample)) :
  wf p -> is_Some (state p) ->
  exists k r,
    process processFrame p (Some (inCh0 :: ins)) (outCh0 :: rest) = Returns r
    /\ call_post processFrame p inCh0 outCh0 rest k r.
Proof.
  intros Hwf [d Hd].
  destruct p as [st fsz vi b w c]. cbn [state] in Hd. subst st.
  set (p := {| state := Some d; frameSize := fsz; vadInterval := vi; buf := b;
               work := w; frameCounter := c |}) in *.
  set (p1 := {| state := state p; frameSize := frameSize p;
                vadInterval := vadInterval p; buf := buf p ++ inCh0;
                work := work p; frameCounter := frameCounter p |}).
  assert (Hwf1 : wf p1) by (destruct Hwf; split; assumption).
  destruct (frame_loop_spec (length (buf p ++ inCh0)) p1 outCh0 0 []
              Hwf1 ltac:(lia) ltac:(reflexivity))
    as (k & [[[p2 out2] oi2] posts2] & Hrun & Hpost).
  unfold loop_post in Hpost.
  cbn [p1 state frameSize vadInterval buf work frameCounter fst snd] in Hpost.
  destruct Hpost as (Hst & Hfsz & Hvi & Hb & Hwk & Hc & Hk & Hidx & Hexit
                     & Hlast & Hlen & Htake & Hposts).
  exists k, (p2, {| channels := assign_from (fun _ => zero) oi2 out2 :: rest;
                    posted := posts2; copied := oi2 |}).
  split.
  - unfold process. cbn [p state]. change (frame_loop _ _ _ _ _ _) with
      (frame_loop processFrame (length (buf p ++ inCh0)) p1 outCh0 0 []).
    rewrite Hrun. reflexivity.
  - unfold call_post. cbn [fst snd channels posted copied].
    repeat split; try assumption.
    rewrite zero_fill_spec by lia. rewrite Htake, Hlen.
    rewrite take_0, Nat.sub_0_r. simpl. simpl in Hidx. do 3 f_equal. lia.
Qed.

(** With a frame size of 0, which the constructor accepts, the loop
    never ends once it is entered: no amount of fuel is enough. *)
Lemma zero_frame_size_hangs (fuel : nat) :
  forall (p : processor D) (out : list sample) (oi : nat) (posts : list message),
    frameSize p = 0%Z -> work p = [] -> oi < length out ->
    frame_loop processFrame fuel p out oi posts = Hangs.
Proof.
  induction fuel as [| fuel IH]; intros p out oi posts Hfs Hwork Hoi.
  all: assert (Hcond : loop_condition p out oi = true)
    by (apply loop_condition_true; split; [rewrite Hfs |]; lia).
  - simpl. rewrite Hcond. reflexivity.
  - cbn [frame_loop]. rewrite Hcond. unfold frame_body.
    rewrite Hfs, Hwork. change (Z.to_nat 0) with 0. rewrite take_0.
    cbn [ta_set length Nat.add Nat.ltb Nat.leb bind take drop app].
    pose proof (transform_frame_length (state p) [] (buf p)) as Hlen.
    destruct (transform_frame processFrame (state p) [] (buf p)) as [[d' w2] vad].
    cbn [fst snd length] in Hlen. apply nil_length_inv in Hlen. subst w2.
    cbn [length Nat.min take]. rewrite ta_set_fits by (simpl; lia).
    cbn [bind length]. rewrite !Nat.add_0_r, app_nil_l, take_drop.
    apply IH; [reflexivity | reflexivity | exact Hoi].
Qed.

(** *** Frames depend on the stream only *)

Lemma transform_frame_buffer (d : option D) (frame b1 b2 : list sample) :
  length frame <= length b1 -> length frame <= length b2 ->
  take (length frame) b1 = take (length frame) b2 ->
  transform_frame processFrame d frame b1 = transform_frame processFrame d frame b2.
Proof.
  intros H1 H2 Heq. unfold transform_frame. destruct d as [d0 |].
  - destruct (processFrame d0 frame) as [d1 w vad | d1 w]; [reflexivity |].
    rewrite !restore_spec by (rewrite overwrite_length; assumption).
    rewrite overwrite_length, Heq. reflexivity.
  - rewrite !restore_spec by assumption. rewrite Heq. reflexivity.
Qed.

Lemma framewise_prefix (k fs : nat) :
  forall (d : option D) (stream extra : list sample),
    k * fs <= length stream ->
    framewise processFrame k fs d (stream ++ extra) = framewise processFrame k fs d stream.
Proof.
  induction k as [| k IH]; intros d stream extra Hk; [reflexivity |].
  rewrite !framewise_succ. cbv zeta.
  assert (Hfs : fs <= length stream) by lia.
  rewrite (take_app_le stream extra fs Hfs).
  rewrite (transform_frame_buffer d (take fs stream) (stream ++ extra) stream).
  - rewrite drop_app_le by exact Hfs.
    rewrite IH by (rewrite length_drop; lia). reflexivity.
  - rewrite length_take, length_app. lia.
  - rewrite length_take. lia.
  - rewrite length_take, take_app_le by lia. reflexivity.
Qed.

Lemma framewise_add (k1 k2 fs : nat) :
  forall (d : option D) (stream : list sample),
    framewise processFrame (k1 + k2) fs d stream
    = let fw1 := framewise processFrame k1 fs d stream in
      let fw2 := framewise processFrame k2 fs fw1.1 (drop (k1 * fs) stream) in
      (fw2.1, fw1.2 ++ fw2.2).
Proof.
  induction k1 as [| k1 IH]; intros d stream; cbv zeta.
  - simpl. rewrite drop_0.
    destruct (framewise processFrame k2 fs d stream). reflexivity.
  - change (S k1 + k2) with (S (k1 + k2)). rewrite !framewise_succ. cbv zeta.
    rewrite IH. cbv zeta. cbn [fst snd]. rewrite drop_drop.
    replace (fs + k1 * fs) with (S k1 * fs) by lia. reflexivity.
Qed.

Lemma framewise_keeps_state (k fs : nat) :
  forall (d : option D) (stream : list sample),
    is_Some d -> is_Some (framewise processFrame k fs d stream).1.
Proof.
  induction k as [| k IH]; intros d stream Hd; [exact Hd |].
  rewrite framewise_succ. cbv zeta. cbn [fst].
  apply IH, transform_frame_keeps_state, Hd.
Qed.

Lemma framewise_length (k fs : nat) :
  forall (d : option D) (stream : list sample),
    length (framewise processFrame k fs d stream).2 = k.
Proof.
  induction k as [| k IH]; intros d stream; [reflexivity |].
  rewrite framewise_succ. cbv zeta. cbn [snd length]. rewrite IH. reflexivity.
Qed.

Lemma posted_of_app (c interval : Z) (l1 l2 : list num) :
  posted_of c interval (l1 ++ l2)
  = posted_of c interval l1 ++ posted_of (c + Z.of_nat (length l1)) interval l2.
Proof.
  revert c. induction l1 as [| v l1 IH]; intros c; simpl.
  - rewrite Z.add_0_r. reflexivity.
  - rewrite IH, <- app_assoc. do 3 f_equal. lia.
Qed.

(** *** Sequences of calls *)

Lemma process_skips (p : processor D) (input : option (list (list sample)))
      (output : list (list sample)) :
  fed (input, output) = [] -> capacity (input, output) = 0 ->
  (forall i ins o rest, input = Some (i :: ins) -> output = o :: rest -> False) ->
  exists e, process processFrame p input output = Returns (p, e)
            /\ copied e = 0 /\ posted e = [].
Proof.
  intros _ _ Hshape. unfold process.
  destruct input as [[| i ins] |].
  - eexists. split; [reflexivity | split; reflexivity].
  - destruct output as [| o rest].
    + eexists. split; [reflexivity | split; reflexivity].
    + exfalso. eapply Hshape; reflexivity.
  - eexists. split; [reflexivity | split; reflexivity].
Qed.

Lemma run_post_nil (p : processor D) :
  wf p -> run_post processFrame p [] 0 (p, []).
Proof.
  intros _. unfold run_post. simpl. rewrite app_nil_r.
  repeat split; try reflexivity; try lia.
Qed.

Lemma run_post_skip (p p2 : processor D) (c : call) (calls : list call) (k : nat)
      (e : effects) (es : list effects) :
  fed c = [] -> capacity c = 0 -> copied e = 0 -> posted e = [] ->
  run_post processFrame p calls k (p2, es) ->
  run_post processFrame p (c :: calls) k (p2, e :: es).
Proof.
  intros Hfed Hcap Hcop Hpos. unfold run_post. cbn [fst snd].
  rewrite !fmap_cons, !concat_cons, Hfed, Hcap, Hcop, Hpos. cbn [app].
  intros (Hst & Hfsz & Hvi & Hb & Hwk & Hc & Hk & Hlen & Hsum & Hsumc & Hposts).
  repeat split; try assumption. simpl. lia.
Qed.

Lemma run_post_call (p p1 p2 : processor D) (i o : list sample)
      (ins rest : list (list sample)) (calls : list call) (k1 k2 : nat)
      (e : effects) (es : list effects) :
  call_post processFrame p i o rest k1 (p1, e) ->
  run_post processFrame p1 calls k2 (p2, es) ->
  run_post processFrame p ((Some (i :: ins), o :: rest) :: calls) (k1 + k2) (p2, e :: es).
Proof.
  unfold call_post, run_post. cbn [fst snd fed capacity].
  rewrite !fmap_cons, !concat_cons. cbn [fed capacity sum_list_with].
  set (fs := Z.to_nat (frameSize p)).
  intros (Hst1 & Hfsz1 & Hvi1 & Hb1 & Hwk1 & Hc1 & Hk1 & Hcop & _ & _ & _ & Hposts1).
  rewrite Hfsz1, Hvi1, Hb1, Hst1, Hc1. fold fs.
  set (feds := concat (fed <$> calls)).
  intros (Hst & Hfsz & Hvi & Hb & Hwk & Hc & Hk & Hlen & Hsum & Hsumc & Hposts).
  assert (Hstream : buf p ++ i ++ feds = (buf p ++ i) ++ feds) by apply app_assoc.
  assert (Hfw : framewise processFrame (k1 + k2) fs (state p) (buf p ++ i ++ feds)
                = (let fw1 := framewise processFrame k1 fs (state p) (buf p ++ i) in
                   let fw2 := framewise processFrame k2 fs fw1.1
                                        (drop (k1 * fs) (buf p ++ i) ++ feds) in
                   (fw2.1, fw1.2 ++ fw2.2))).
  { rewrite framewise_add. cbv zeta. rewrite Hstream.
    rewrite framewise_prefix by exact Hk1.
    rewrite drop_app_le by exact Hk1. reflexivity. }
  rewrite Hfw. cbv zeta. cbn [fst snd].
  rewrite length_app, length_drop in Hk.
  repeat split.
  - exact Hst.
  - exact Hfsz.
  - exact Hvi.
  - rewrite Hb. replace ((k1 + k2) * fs) with (k1 * fs + k2 * fs) by lia.
    rewrite <- drop_drop, Hstream, (drop_app_le (buf p ++ i) feds (k1 * fs) Hk1).
    reflexivity.
  - congruence.
  - rewrite Hc. lia.
  - rewrite !length_app in *. lia.
  - simpl. lia.
  - simpl. lia.
  - simpl. lia.
  - simpl. rewrite Hposts1, Hposts, fmap_app, posted_of_app.
    rewrite length_fmap, framewise_length. reflexivity.
Qed.

(** Every sequence of calls on a well-formed processor with a denoise
    state returns, and [run_post] describes what it did. *)
Lemma run_spec (calls : list call) :
  forall p : processor D,
    wf p -> is_Some (state p) ->
    exists k r, run processFrame p calls = Returns r
                /\ run_post processFrame p calls k r
                /\ wf r.1 /\ is_Some (state r.1).
Proof.
  induction calls as [| [input output] calls IH]; intros p Hwf Hst.
  - exists 0, (p, []).
    split; [reflexivity | split; [apply run_post_nil, Hwf | split; assumption]].
  - assert (Hskip : fed (input, output) = [] -> capacity (input, output) = 0 ->
                    (forall i ins o rest, input = Some (i :: ins) ->
                                          output = o :: rest -> False) ->
                    exists k r, run processFrame p ((input, output) :: calls) = Returns r
                                /\ run_post processFrame p ((input, output) :: calls) k r
                                /\ wf r.1 /\ is_Some (state r.1)).
    { intros Hfed Hcap Hshape.
      destruct (process_skips p input output Hfed Hcap Hshape) as (e & Hp & Hcop & Hpos).
      destruct (IH p Hwf Hst) as (k & [p2 es] & Hrun & Hpost & Hwf2 & Hst2).
      exists k, (p2, e :: es). split; [| split; [| split; assumption]].
      - simpl. rewrite Hp. simpl. rewrite Hrun. reflexivity.
      - apply run_post_skip; assumption. }
    destruct input as [[| i ins] |]; [apply Hskip; try reflexivity; discriminate | |
                                      apply Hskip; try reflexivity; discriminate].
    destruct output as [| o rest]; [apply Hskip; try reflexivity; discriminate |].
    clear Hskip.
    destruct (process_spec p i o ins rest Hwf Hst) as (k1 & [p1 e] & Hp & Hcall).
    assert (Hwf1 : wf p1).
    { destruct Hwf as [Hpos Hwork]. unfold call_post in Hcall. cbn [fst] in Hcall.
      destruct Hcall as (_ & Hfsz & _ & _ & Hwk & _). split; congruence. }
    assert (Hst1 : is_Some (state p1)).
    { unfold call_post in Hcall. cbn [fst] in Hcall.
      destruct Hcall as (Hs & _). rewrite Hs. apply framewise_keeps_state, Hst. }
    destruct (IH p1 Hwf1 Hst1) as (k2 & [p2 es] & Hrun & Hpost & Hwf2 & Hst2).
    exists (k1 + k2), (p2, e :: es). split; [| split; [| split; assumption]].
    + cbn [run]. rewrite Hp. cbn [bind]. rewrite Hrun. reflexivity.
    + eapply run_post_call; eassumption.
Qed.

(** *** What reaches the output *)

Lemma passes_unique (a b f k : nat) :
  0 < f -> k * f <= a -> (a - k * f < f \/ b `min` (k * f) = b) ->
  (0 < k -> (k - 1) * f < b) ->
  k = (a / f) `min` ((b + f - 1) / f).
Proof.
  intros Hf Hk Hexit Hlast.
  pose proof (Nat.Div0.mul_div_le a f) as Hq1.
  pose proof (Nat.mul_succ_div_gt a f ltac:(lia)) as Hq2.
  pose proof (Nat.Div0.mul_div_le (b + f - 1) f) as Hc1.
  pose proof (Nat.mul_succ_div_gt (b + f - 1) f ltac:(lia)) as Hc2.
  set (q := a / f) in *. set (c := (b + f - 1) / f) in *.
  assert (Hkq : k <= q) by nia.
  assert (Hkc : k <= c).
  { destruct k as [| k]; [lia |]. specialize (Hlast ltac:(lia)).
    simpl in Hlast. rewrite Nat.sub_0_r in Hlast. nia. }
  destruct Hexit as [Hshort | Hfull].
  - assert (q <= k) by nia. lia.
  - assert (c <= k) by nia. lia.
Qed.

Lemma framewise_concat_length (k fs : nat) :
  forall (d : option D) (stream : list sample),
    k * fs <= length stream ->
    length (concat (framewise processFrame k fs d stream).2.*1) = k * fs.
Proof.
  induction k as [| k IH]; intros d stream Hk; [reflexivity |].
  rewrite framewise_succ. cbv zeta. cbn [snd]. rewrite fmap_cons, concat_cons. cbn [fst].
  rewrite length_app, transform_frame_length, length_take.
  rewrite IH by (rewrite length_drop; lia). lia.
Qed.

Lemma framewise_call (k1 k2 fs : nat) (d : option D) (s1 s2 : list sample) :
  k1 * fs <= length s1 ->
  framewise processFrame (k1 + k2) fs d (s1 ++ s2)
  = let fw1 := framewise processFrame k1 fs d s1 in
    let fw2 := framewise processFrame k2 fs fw1.1 (drop (k1 * fs) s1 ++ s2) in
    (fw2.1, fw1.2 ++ fw2.2).
Proof.
  intros Hk. rewrite framewise_add. cbv zeta.
  rewrite framewise_prefix by exact Hk.
  rewrite drop_app_le by exact Hk. reflexivity.
Qed.

(** The [j]-th frame of a stream is the transform of its [j]-th slice
    by the denoise state the earlier frames have left. *)
Lemma framewise_lookup (k fs j : nat) (d : option D) (stream : list sample) :
  j < k ->
  let buffer := drop (j * fs) stream in
  let t := transform_frame processFrame (framewise processFrame j fs d stream).1
                           (take fs buffer) buffer in
  (framewise processFrame k fs d stream).2 !! j = Some (t.1.2, t.2)
  /\ (framewise processFrame (S j) fs d stream).1 = t.1.1.
Proof.
  intros Hj buffer t. split.
  - replace k with (j + S (k - j - 1)) by lia.
    rewrite framewise_add. cbv zeta. cbn [snd].
    rewrite lookup_app_r by (rewrite framewise_length; lia).
    rewrite framewise_length, Nat.sub_diag, framewise_succ. reflexivity.
  - replace (S j) with (j + 1) by lia. rewrite framewise_add. cbv zeta. cbn [fst].
    rewrite framewise_succ. reflexivity.
Qed.

(** What the catch block leaves of a frame on which [processFrame]
    raises: its samples as buffered, the falsy ones as 0, whatever was
    written before the failure. *)
Lemma transform_frame_failed (d d' : D) (w buffer : list sample) (fs : nat) :
  processFrame d (take fs buffer) = Failed d' w ->
  transform_frame processFrame (Some d) (take fs buffer) buffer
  = (Some d', map (fun x => or_zero (Some x)) (take fs buffer), zero).
Proof.
  intros Hfail. unfold transform_frame. rewrite Hfail.
  rewrite restore_spec by (rewrite overwrite_length, length_take; lia).
  rewrite overwrite_length, length_take.
  destruct (Nat.le_gt_cases fs (length buffer)) as [Hle | Hgt].
  - rewrite Nat.min_l by exact Hle. reflexivity.
  - rewrite Nat.min_r by lia. rewrite !take_ge by lia. reflexivity.
Qed.

Lemma or_zero_keeps (frame : list sample) :
  Forall (fun x => x <> nan /\ x <> negzero) frame ->
  map (fun x => or_zero (Some x)) frame = frame.
Proof.
  induction 1 as [| x l [Hnan Hneg] _ IH]; [reflexivity |].
  cbn [map]. rewrite IH. f_equal.
  unfold nan, negzero in *. destruct x as [[|] | | |]; try reflexivity; congruence.
Qed.

Lemma passes_none (fs n : nat) : 0 < fs -> passes fs n 0 = 0.
Proof.
  intros Hfs. unfold passes.
  rewrite (Nat.div_small (0 + fs - 1) fs) by lia. lia.
Qed.

(** A call that does not reach the loop leaves the processor as it is. *)
Lemma process_no_loop (p : processor D) (input : option (list (list sample)))
      (output : list (list sample)) :
  (forall i ins o rest, input = Some (i :: ins) -> output = o :: rest -> False) ->
  process processFrame p input output
  = Returns (p, {| channels := filled (input, output) []; posted := []; copied := 0 |}).
Proof.
  intros Hshape. unfold process.
  destruct input as [[| i ins] |]; [reflexivity | | reflexivity].
  destruct output as [| o rest]; [reflexivity |].
  exfalso. eapply Hshape; reflexivity.
Qed.

(** Every sequence of calls on a well-formed processor with a denoise
    state returns, each call has made the passes [passes_of] gives it,
    and the outputs are what [written] makes of the transformed frames;
    the samples copied, call after call, are taken in order from the
    transformed frames, none of them twice. *)
Lemma run_accounts (calls : list call) :
  forall p : processor D,
    wf p -> is_Some (state p) ->
    exists r,
      run processFrame p calls = Returns r
      /\ (let fs := Z.to_nat (frameSize p) in
          let ks := passes_of fs (length (buf p)) calls in
          let fw := framewise processFrame (sum_list ks) fs (state p)
                              (buf p ++ concat (fed <$> calls)) in
          run_post processFrame p calls (sum_list ks) r
          /\ copied <$> r.2 = zip_with (fun c k => capacity c `min` (k * fs)) calls ks
          /\ channels <$> r.2 = written fw.2.*1 ks calls
          /\ concat (from_frames <$> r.2) `sublist_of` concat fw.2.*1
          /\ length (concat (from_frames <$> r.2)) = sum_list (copied <$> r.2)).
Proof.
  induction calls as [| [input output] calls IH]; intros p Hwf Hst.
  - exists (p, []). split; [reflexivity |]. cbv zeta.
    split; [apply run_post_nil, Hwf |].
    split; [reflexivity |]. split; [reflexivity |].
    split; [apply sublist_nil_l | reflexivity].
  - set (fs := Z.to_nat (frameSize p)).
    assert (Hfs : 0 < fs) by (destruct Hwf; unfold fs; lia).
    assert (Hskip : fed (input, output) = [] -> capacity (input, output) = 0 ->
                    (forall i ins o rest, input = Some (i :: ins) ->
                                          output = o :: rest -> False) ->
                    exists r,
                      run processFrame p ((input, output) :: calls) = Returns r
                      /\ (let ks := passes_of fs (length (buf p)) ((input, output) :: calls) in
                          let fw := framewise processFrame (sum_list ks) fs (state p)
                                      (buf p ++ concat (fed <$> (input, output) :: calls)) in
                          run_post processFrame p ((input, output) :: calls) (sum_list ks) r
                          /\ copied <$> r.2
                             = zip_with (fun c k => capacity c `min` (k * fs))
                                        ((input, output) :: calls) ks
                          /\ channels <$> r.2 = written fw.2.*1 ks ((input, output) :: calls)
                          /\ concat (from_frames <$> r.2) `sublist_of` concat fw.2.*1
                          /\ length (concat (from_frames <$> r.2))
                             = sum_list (copied <$> r.2))).
    { intros Hfed Hcap Hshape.
      destruct (IH p Hwf Hst) as ([p2 es] & Hrun & Hpost & Hcop & Hch & Hsub & Hcount).
      cbv zeta in Hpost, Hcop, Hch, Hsub. fold fs in Hpost, Hcop, Hch, Hsub.
      cbn [fst snd] in Hcop, Hch, Hsub, Hcount.
      set (e := {| channels := filled (input, output) []; posted := [];
                   copied := 0 |}).
      exists (p2, e :: es). split.
      { cbn [run]. rewrite (process_no_loop p input output Hshape). cbn [bind].
        rewrite Hrun. reflexivity. }
      cbv zeta. cbn [passes_of]. rewrite Hfed, Hcap. cbn [length].
      rewrite Nat.add_0_r, (passes_none fs _ Hfs). cbn [Nat.mul]. rewrite Nat.sub_0_r.
      cbn [sum_list sum_list_with Nat.add fst snd].
      rewrite !fmap_cons, concat_cons, Hfed. cbn [app].
      split; [apply run_post_skip; try assumption; reflexivity |].
      split; [cbn [zip_with copied e]; rewrite Hcap, Hcop; reflexivity |].
      split; [cbn [written take drop concat channels e]; rewrite Hch; reflexivity |].
      split; [exact Hsub | exact Hcount]. }
    destruct input as [[| i ins] |]; [apply Hskip; try reflexivity; discriminate | |
                                      apply Hskip; try reflexivity; discriminate].
    destruct output as [| o rest]; [apply Hskip; try reflexivity; discriminate |].
    clear Hskip.
    destruct (process_spec p i o ins rest Hwf Hst) as (k1 & [p1 e] & Hp & Hcall).
    pose proof Hcall as Hcall'.
    unfold call_post in Hcall'. cbn [fst snd] in Hcall'. fold fs in Hcall'.
    destruct Hcall' as (Hs1 & Hfsz1 & _ & Hb1 & Hwk1 & _ & Hk1 & Hcop1 & Hexit & Hlast
                        & Hch1 & _).
    assert (Hwf1 : wf p1) by (destruct Hwf as [Hpos Hwork]; split; congruence).
    assert (Hst1 : is_Some (state p1)).
    { rewrite Hs1. apply framewise_keeps_state, Hst. }
    assert (Hlen1 : length (buf p1) = length (buf p) + length i - k1 * fs).
    { rewrite Hb1, length_drop, length_app. reflexivity. }
    assert (Hk1eq : k1 = passes fs (length (buf p) + length i) (length o)).
    { unfold passes. apply passes_unique.
      - exact Hfs.
      - rewrite length_app in Hk1. exact Hk1.
      - rewrite Hlen1 in Hexit.
        destruct Hexit as [Hshort | Hfull]; [left; exact Hshort | right; lia].
      - exact Hlast. }
    destruct (IH p1 Hwf1 Hst1) as ([p2 es] & Hrun & Hpost & Hcop & Hch & Hsub & Hcount).
    cbv zeta in Hpost, Hcop, Hch, Hsub. rewrite Hfsz1 in Hpost, Hcop, Hch, Hsub.
    fold fs in Hpost, Hcop, Hch, Hsub. rewrite Hlen1 in Hpost, Hcop, Hch, Hsub.
    cbn [fst snd] in Hcop, Hch, Hsub, Hcount.
    exists (p2, e :: es). split.
    { cbn [run]. rewrite Hp. cbn [bind]. rewrite Hrun. reflexivity. }
    cbv zeta. cbn [passes_of fed capacity]. rewrite <- Hk1eq.
    set (ks := passes_of fs (length (buf p) + length i - k1 * fs) calls) in *.
    cbn [sum_list sum_list_with fst snd]. change (id k1) with k1.
    rewrite !fmap_cons, concat_cons. cbn [fed].
    assert (Hfw : framewise processFrame (k1 + sum_list ks) fs (state p)
                            (buf p ++ i ++ concat (fed <$> calls))
                  = (let fw1 := framewise processFrame k1 fs (state p) (buf p ++ i) in
                     let fw2 := framewise processFrame (sum_list ks) fs (state p1)
                                          (buf p1 ++ concat (fed <$> calls)) in
                     (fw2.1, fw1.2 ++ fw2.2))).
    { rewrite app_assoc, framewise_call by exact Hk1. cbv zeta.
      rewrite Hs1, Hb1. reflexivity. }
    rewrite Hfw. cbv zeta. cbn [snd].
    set (fw1 := framewise processFrame k1 fs (state p) (buf p ++ i)) in *.
    set (fw2 := framewise processFrame (sum_list ks) fs (state p1)
                          (buf p1 ++ concat (fed <$> calls))) in *.
    assert (Hl1 : length fw1.2.*1 = k1).
    { rewrite length_fmap. apply framewise_length. }
    assert (Hc1 : length (concat fw1.2.*1) = k1 * fs).
    { apply framewise_concat_length, Hk1. }
    rewrite fmap_app.
    split; [eapply run_post_call; eassumption |].
    split; [cbn [zip_with capacity]; rewrite Hcop1, Hcop; reflexivity |].
    split.
    { cbn [written]. rewrite take_app_length', drop_app_length' by (symmetry; exact Hl1).
      rewrite <- Hch. f_equal. rewrite Hch1. cbn [filled]. rewrite Hc1. reflexivity. }
    assert (Hfrom : from_frames e = take (length o `min` (k1 * fs)) (concat fw1.2.*1)).
    { unfold from_frames. rewrite Hch1, Hcop1. cbn [head default from_option id].
      unfold sample in *.
      rewrite take_app_le by (rewrite length_take, Hc1; lia).
      rewrite take_take. f_equal. lia. }
    rewrite concat_app, concat_cons, Hfrom. split.
    + apply sublist_app; [apply sublist_take | exact Hsub].
    + rewrite length_app, length_take, Hc1, Hcount. cbn [sum_list sum_list_with].
      rewrite Hcop1. unfold id. lia.
Qed.

End ProcessorFacts.

(** ** Properties of the processor *)

Section ProcessorProperties.

Local Open Scope nat_scope.

Variable D : Type.
Variable processFrame : D -> list sample -> frame_result D.

Lemma call_post_wf (p p' : processor D) (i o : list sample) (rest : list (list sample))
      (k : nat) (e : effects) :
  wf p -> is_Some (state p) ->
  call_post processFrame p i o rest k (p', e) ->
  wf p' /\ is_Some (state p').
Proof.
  intros [Hpos Hwork] Hst Hcall. unfold call_post in Hcall. cbn [fst] in Hcall.
  destruct Hcall as (Hs & Hfsz & _ & _ & Hwk & _). split.
  - split; congruence.
  - rewrite Hs. apply framewise_keeps_state, Hst.
Qed.

(** C1 (amended): on a processor with a denoise state, every call with
    an input and an output channel returns and leaves a residual of at
    least 0 samples which is shorter than one frame unless the call ended
    with the output capacity exhausted; the residual stays shorter than
    one frame over any sequence of calls whose input blocks hold at most
    [frameSize] samples and whose output channels are not empty. *)
Theorem residual_bound (p : processor D) (inCh0 outCh0 : list sample)
        (ins rest : list (list sample)) :
  wf p -> is_Some (state p) ->
  exists p' e,
    process processFrame p (Some (inCh0 :: ins)) (outCh0 :: rest) = Returns (p', e)
    /\ wf p' /\ is_Some (state p') /\ frameSize p' = frameSize p
    /\ (0 <= Z.of_nat (length (buf p')))%Z
    /\ ((Z.of_nat (length (buf p')) < frameSize p)%Z \/ copied e = length outCh0)
    /\ ((Z.of_nat (length (buf p)) < frameSize p)%Z ->
        (Z.of_nat (length inCh0) <= frameSize p)%Z -> 0 < length outCh0 ->
        (Z.of_nat (length (buf p')) < frameSize p)%Z).
Proof.
  intros Hwf Hst.
  destruct (process_spec D processFrame p inCh0 outCh0 ins rest Hwf Hst)
    as (k & [p' e] & Hp & Hcall).
  destruct (call_post_wf p p' inCh0 outCh0 rest k e Hwf Hst Hcall) as [Hwf' Hst'].
  exists p', e. unfold call_post in Hcall. cbn [fst snd] in Hcall.
  destruct Hcall as (_ & Hfsz & _ & Hb & _ & _ & Hk & Hcop & Hexit & _).
  destruct Hwf as [Hpos _].
  repeat split; try assumption.
  - apply Hwf'.
  - apply Hwf'.
  - lia.
  - destruct Hexit as [Hshort | Hfull]; [left; lia | right; exact Hfull].
  - intros Hres Hin Hout. rewrite Hb in *. rewrite length_drop, length_app in *.
    destruct k as [| k]; [| nia].
    destruct Hexit as [Hshort | Hfull]; lia.
Qed.

(** C9: when a call ends with the output capacity exhausted, the
    samples still buffered stay in the buffer, in order, even if they are
    [frameSize] or more, and later calls cut their frames from the front
    of that buffer followed by the later input; of the frames extracted
    in the call, only the uncopied tail of the last one is discarded. *)
Theorem backlog_kept (p : processor D) (inCh0 outCh0 : list sample)
        (ins rest : list (list sample)) :
  wf p -> is_Some (state p) ->
  exists k p' e,
    process processFrame p (Some (inCh0 :: ins)) (outCh0 :: rest) = Returns (p', e)
    /\ wf p' /\ is_Some (state p')
    /\ (let fs := Z.to_nat (frameSize p) in
        let stream := buf p ++ inCh0 in
        let fw := framewise processFrame k fs (state p) stream in
        buf p' = drop (k * fs) stream
        /\ k * fs <= length stream
        /\ frameCounter p' = (frameCounter p + Z.of_nat k)%Z
        /\ state p' = fw.1
        /\ copied e = length outCh0 `min` (k * fs)
        /\ (fs <= length (buf p') -> copied e = length outCh0)
        /\ k * fs - copied e < fs
        /\ (0 < k -> (k - 1) * fs < length outCh0)
        /\ channels e = (take (length outCh0) (concat fw.2.*1)
                           ++ replicate (length outCh0 - k * fs) zero) :: rest
        /\ forall calls : list call,
            exists k' p'' es,
              run processFrame p' calls = Returns (p'', es)
              /\ (let later := buf p' ++ concat (fed <$> calls) in
                  buf p'' = drop (k' * fs) later
                  /\ k' * fs <= length later
                  /\ state p''
                     = (framewise processFrame k' fs (state p') later).1)).
Proof.
  intros Hwf Hst.
  destruct (process_spec D processFrame p inCh0 outCh0 ins rest Hwf Hst)
    as (k & [p' e] & Hp & Hcall).
  destruct (call_post_wf p p' inCh0 outCh0 rest k e Hwf Hst Hcall) as [Hwf' Hst'].
  exists k, p', e. unfold call_post in Hcall. cbn [fst snd] in Hcall.
  destruct Hcall as (Hs & Hfsz & _ & Hb & _ & Hc & Hk & Hcop & Hexit & Hlast & Hch & _).
  destruct Hwf as [Hpos _].
  split; [exact Hp |]. split; [exact Hwf' |]. split; [exact Hst' |].
  cbv zeta. repeat split; try assumption.
  - intros Hfull. destruct Hexit as [Hshort | Hdone]; [lia | exact Hdone].
  - rewrite Hcop. destruct k as [| k]; [simpl; lia |].
    specialize (Hlast ltac:(lia)). simpl in Hlast. rewrite Nat.sub_0_r in Hlast. lia.
  - intros calls.
    destruct (run_spec D processFrame calls p' Hwf' Hst')
      as (k' & [p'' es] & Hrun & Hpost & _).
    exists k', p'', es. split; [exact Hrun |].
    unfold run_post in Hpost. cbn [fst snd] in Hpost. rewrite Hfsz in Hpost.
    destruct Hpost as (Hs' & _ & _ & Hb' & _ & _ & Hk' & _).
    cbv zeta. repeat split; assumption.
Qed.

(** C2 (amended): over any sequence of calls on a processor whose buffer
    is empty, each call processes the whole frames buffered so far, until
    its output is full, and leaves in its output the first samples of its
    transformed frames, as many as the output holds -- the lesser of its
    capacity and [frameSize] times its frames -- followed by zeros.  The
    samples written, call after call, are taken in order from the
    transformed frames, none of them twice, and with [N] samples fed and
    the total capacity [C] they are at most [min N C].  The [k] frames
    processed are the first [k] consecutive slices of [frameSize] samples
    of the concatenated input, whatever the chunking; the rest of the
    input is still buffered. *)
Theorem frame_accounting (p : processor D) (calls : list call) :
  wf p -> is_Some (state p) -> buf p = [] ->
  let fs := Z.to_nat (frameSize p) in
  let input := concat (fed <$> calls) in
  let ks := passes_of fs 0 calls in
  let k := sum_list ks in
  let fw := framewise processFrame k fs (state p) input in
  exists p' es,
    run processFrame p calls = Returns (p', es)
    /\ copied <$> es = zip_with (fun c kc => capacity c `min` (kc * fs)) calls ks
    /\ channels <$> es = written fw.2.*1 ks calls
    /\ concat (from_frames <$> es) `sublist_of` concat fw.2.*1
    /\ length (concat (from_frames <$> es)) = sum_list (copied <$> es)
    /\ sum_list (copied <$> es) <= length input `min` sum_list (capacity <$> calls)
    /\ sum_list (copied <$> es) <= k * fs
    /\ k * fs <= length input
    /\ frameCounter p' = (frameCounter p + Z.of_nat k)%Z
    /\ state p' = fw.1
    /\ buf p' = drop (k * fs) input
    /\ concat (posted <$> es) = posted_of (frameCounter p) (vadInterval p) fw.2.*2.
Proof.
  intros Hwf Hst Hempty. cbv zeta.
  destruct (run_accounts D processFrame calls p Hwf Hst)
    as ([p' es] & Hrun & Hpost & Hcop & Hch & Hsub & Hcount).
  exists p', es. split; [exact Hrun |].
  unfold run_post in Hpost. cbn [fst snd] in Hpost, Hcop, Hch, Hsub, Hcount.
  rewrite Hempty in Hpost, Hcop, Hch, Hsub.
  cbn [app length] in Hpost, Hcop, Hch, Hsub.
  destruct Hpost as (Hs & _ & _ & Hb & _ & Hc & Hk & _ & Hsum & Hsumc & Hposts).
  refine (conj Hcop (conj Hch (conj Hsub (conj Hcount (conj _ (conj Hsum (conj Hk
            (conj Hc (conj Hs (conj Hb Hposts)))))))))).
  lia.
Qed.

(** X20: two chunkings of the same input that have processed the same number
    of frames have handed the same frames to the transform: they leave the
    same buffer and denoise state and have posted the same messages. *)
Lemma framing_independent_of_chunking (p : processor D) (calls1 calls2 : list call) :
  wf p -> is_Some (state p) ->
  concat (fed <$> calls1) = concat (fed <$> calls2) ->
  exists p1 es1 p2 es2,
    run processFrame p calls1 = Returns (p1, es1)
    /\ run processFrame p calls2 = Returns (p2, es2)
    /\ (frameCounter p1 = frameCounter p2 ->
        buf p1 = buf p2 /\ state p1 = state p2
        /\ concat (posted <$> es1) = concat (posted <$> es2)).
Proof.
  intros Hwf Hst Hsame.
  destruct (run_spec D processFrame calls1 p Hwf Hst) as (k1 & [p1 es1] & Hrun1 & Hpost1 & _).
  destruct (run_spec D processFrame calls2 p Hwf Hst) as (k2 & [p2 es2] & Hrun2 & Hpost2 & _).
  exists p1, es1, p2, es2. split; [exact Hrun1 |]. split; [exact Hrun2 |].
  unfold run_post in Hpost1, Hpost2. cbn [fst snd] in Hpost1, Hpost2.
  rewrite Hsame in Hpost1.
  destruct Hpost1 as (Hs1 & _ & _ & Hb1 & _ & Hc1 & _ & _ & _ & _ & Hposts1).
  destruct Hpost2 as (Hs2 & _ & _ & Hb2 & _ & Hc2 & _ & _ & _ & _ & Hposts2).
  intros Hcount. assert (k1 = k2) as -> by lia.
  repeat split; congruence.
Qed.

Lemma posted_of_zero (c : Z) (vads : list num) : posted_of c 0 vads = [].
Proof.
  revert c. induction vads as [| v vads IH]; intros c; simpl; [reflexivity |].
  rewrite IH. reflexivity.
Qed.

Lemma concat_nil_all {A B : Type} (f : A -> list B) (l : list A) :
  concat (f <$> l) = [] -> Forall (fun x => f x = []) l.
Proof.
  induction l as [| x l IH]; intros Hnil; [constructor |].
  rewrite fmap_cons, concat_cons in Hnil.
  apply app_eq_nil in Hnil as [Hx Hl]. constructor; [exact Hx | apply IH, Hl].
Qed.

Lemma run_without_state (calls : list call) (p : processor D) :
  state p = None ->
  exists es, run processFrame p calls = Returns (p, es)
             /\ length es = length calls
             /\ Forall (fun e => posted e = []) es.
Proof.
  intros Hst. induction calls as [| [input output] calls IH].
  - exists []. split; [reflexivity | split; [reflexivity | constructor]].
  - destruct IH as (es & Hrun & Hlen & Hall).
    assert (Hp : exists e, process processFrame p input output = Returns (p, e)
                           /\ posted e = []).
    { unfold process. rewrite Hst.
      destruct input as [[| i ins] |]; [| destruct output as [| o rest] |];
        eexists; split; reflexivity. }
    destruct Hp as (e & Hp & Hposted).
    exists (e :: es). split.
    + cbn [run]. rewrite Hp. cbn [bind]. rewrite Hrun. reflexivity.
    + split; [simpl; congruence | constructor; assumption].
Qed.

(** C10: a processor constructed with [vadInterval = 0] (and a positive
    frame size that can be allocated, the default one included)
    completes every call without raising, with or without a denoise
    state, and never posts a VAD message, however many frames it
    processes. *)
Theorem zero_interval_posts_nothing (max_length : N) (ds : option D) (fs : option Z)
        (calls : list call) :
  (0 < default 480 fs <= length_limit max_length)%Z ->
  exists p p' es,
    constructor max_length (Some {| denoiseState := ds; opt_frameSize := fs;
                                    opt_vadInterval := Some 0%Z |}) = Returns p
    /\ vadInterval p = 0%Z
    /\ run processFrame p calls = Returns (p', es)
    /\ length es = length calls
    /\ Forall (fun e => posted e = []) es.
Proof.
  intros [Hpos Hmax].
  set (p := {| state := ds; frameSize := default 480%Z fs; vadInterval := 0%Z;
               buf := []; work := replicate (Z.to_nat (default 480%Z fs)) zero;
               frameCounter := 0%Z |}).
  assert (Hctor : constructor max_length
                              (Some {| denoiseState := ds; opt_frameSize := fs;
                                       opt_vadInterval := Some 0%Z |}) = Returns p).
  { apply (constructor_returns D max_length).
    exact (conj (Z.lt_le_incl _ _ Hpos) Hmax). }
  assert (Hwf : wf p).
  { split; [exact Hpos |]. cbn [p work frameSize]. apply length_replicate. }
  destruct ds as [d |].
  - destruct (run_spec D processFrame calls p Hwf ltac:(eexists; reflexivity))
      as (k & [p' es] & Hrun & Hpost & _).
    exists p, p', es. unfold run_post in Hpost. cbn [fst snd] in Hpost.
    destruct Hpost as (_ & _ & _ & _ & _ & _ & _ & Hlen & _ & _ & Hposts).
    cbn [p vadInterval] in Hposts. rewrite posted_of_zero in Hposts.
    repeat split; try assumption; try reflexivity.
    apply concat_nil_all, Hposts.
  - destruct (run_without_state calls p eq_refl) as (es & Hrun & Hlen & Hall).
    exists p, p, es. repeat split; try assumption; try reflexivity.
Qed.

(** *** Recovery from a failing transform *)

Lemma transform_frame_recovered (d : option D) (frame buffer : list sample) :
  length frame <= length buffer -> frame = take (length frame) buffer ->
  transform_frame (recovered processFrame) d frame buffer
  = transform_frame processFrame d frame buffer.
Proof.
  intros Hle Hframe. unfold transform_frame, recovered. destruct d as [d0 |]; [| reflexivity].
  destruct (processFrame d0 frame) as [d1 w vad | d1 w]; [reflexivity |].
  rewrite restore_spec by (rewrite overwrite_length; exact Hle).
  rewrite overwrite_length, <- Hframe.
  unfold overwrite. rewrite length_map, drop_all, app_nil_r.
  unfold sample in *. rewrite take_ge by (rewrite length_map; lia). reflexivity.
Qed.

Lemma frame_loop_recovered (fuel : nat) :
  forall (p : processor D) (out : list sample) (oi : nat) (posts : list message),
    wf p ->
    frame_loop (recovered processFrame) fuel p out oi posts
    = frame_loop processFrame fuel p out oi posts.
Proof.
  induction fuel as [| fuel IH]; intros p out oi posts Hwf; [reflexivity |].
  cbn [frame_loop]. destruct (loop_condition p out oi) eqn:Hcond; [| reflexivity].
  rewrite (frame_body_spec D processFrame p out oi Hwf Hcond).
  rewrite (frame_body_spec D (recovered processFrame) p out oi Hwf Hcond).
  cbv zeta. apply loop_condition_true in Hcond as [Hbuf Hout]. destruct Hwf as [Hpos Hwork].
  assert (Hfs : Z.to_nat (frameSize p) <= length (buf p)) by lia.
  rewrite transform_frame_recovered.
  - cbn [bind]. apply IH. split; cbn [frameSize work]; [exact Hpos |].
    rewrite transform_frame_length, length_take. lia.
  - rewrite length_take. lia.
  - rewrite length_take. f_equal. lia.
Qed.

Lemma process_recovered (p : processor D) (input : option (list (list sample)))
      (output : list (list sample)) :
  wf p ->
  process (recovered processFrame) p input output = process processFrame p input output.
Proof.
  intros Hwf. unfold process.
  destruct input as [[| i ins] |]; try reflexivity.
  destruct output as [| o rest]; try reflexivity.
  destruct (state p) eqn:Hst; try reflexivity.
  rewrite frame_loop_recovered; [reflexivity |].
  destruct Hwf; split; assumption.
Qed.

Lemma process_returns (p : processor D) (input : option (list (list sample)))
      (output : list (list sample)) :
  wf p ->
  exists p' e, process processFrame p input output = Returns (p', e) /\ wf p'.
Proof.
  intros Hwf.
  destruct input as [[| i ins] |]; try (eexists _, _; split; [reflexivity | exact Hwf]).
  destruct output as [| o rest]; try (eexists _, _; split; [reflexivity | exact Hwf]).
  destruct (state p) as [d |] eqn:Hst.
  - destruct (process_spec D processFrame p i o ins rest Hwf ltac:(eauto))
      as (k & [p' e] & Hp & Hcall).
    exists p', e. split; [exact Hp |].
    eapply call_post_wf; [exact Hwf | eauto | exact Hcall].
  - unfold process. rewrite Hst. eexists _, _; split; [reflexivity | exact Hwf].
Qed.

Lemma run_returns (calls : list call) :
  forall p : processor D,
    wf p -> exists p' es, run processFrame p calls = Returns (p', es) /\ wf p'.
Proof.
  induction calls as [| [input output] calls IH]; intros p Hwf.
  - exists p, []. split; [reflexivity | exact Hwf].
  - destruct (process_returns p input output Hwf) as (p1 & e & Hp & Hwf1).
    destruct (IH p1 Hwf1) as (p2 & es & Hrun & Hwf2).
    exists p2, (e :: es). split; [| exact Hwf2].
    cbn [run]. rewrite Hp. cbn [bind]. rewrite Hrun. reflexivity.
Qed.

Lemma run_recovered (calls : list call) :
  forall p : processor D,
    wf p -> run (recovered processFrame) p calls = run processFrame p calls.
Proof.
  induction calls as [| [input output] calls IH]; intros p Hwf; [reflexivity |].
  cbn [run]. rewrite process_recovered by exact Hwf.
  destruct (process_returns p input output Hwf) as (p1 & e & Hp & Hwf1).
  rewrite Hp. cbn [bind]. rewrite IH by exact Hwf1. reflexivity.
Qed.

(** X19: what the try/catch does when [processFrame] raises on a frame: it
    leaves in [work] the frame's samples as they came in, except that
    every falsy sample (NaN, -0) is 0 -- so the samples themselves when
    the frame has no NaN and no -0 -- and the score 0; no call raises;
    and every run is the run of the transform that returns that frame
    and score where [processFrame] raises, so the other frames are
    processed as if nothing had failed. *)
Lemma failure_recovery (p : processor D) (calls : list call) :
  wf p ->
  (exists r, run processFrame p calls = Returns r)
  /\ run processFrame p calls = run (recovered processFrame) p calls
  /\ (forall d frame buffer d' w,
         processFrame d frame = Failed d' w ->
         length frame <= length buffer -> frame = take (length frame) buffer ->
         transform_frame processFrame (Some d) frame buffer
         = (Some d', map (fun x => or_zero (Some x)) frame, zero)
         /\ (Forall (fun x => truthy x = true \/ x = zero) frame ->
             map (fun x => or_zero (Some x)) frame = frame)).
Proof.
  intros Hwf. split; [| split].
  - destruct (run_returns calls p Hwf) as (p' & es & Hrun & _). eauto.
  - symmetry. apply run_recovered, Hwf.
  - intros d frame buffer d' w Hfail Hle Hframe. split.
    + unfold transform_frame. rewrite Hfail.
      rewrite restore_spec by (rewrite overwrite_length; exact Hle).
      rewrite overwrite_length, <- Hframe. reflexivity.
    + intros Hall. clear Hfail Hle Hframe.
      induction Hall as [| x l Hx _ IH]; [reflexivity |].
      cbn [map]. rewrite IH. f_equal.
      destruct Hx as [Ht | ->]; [simpl; rewrite Ht |]; reflexivity.
Qed.

(** C5 (amended): no call raises, whatever [processFrame] does.  Every
    frame processed is a whole slice of [frameSize] samples of the
    stream, given to [processFrame] with the denoise state the earlier
    frames have left.  Where [processFrame] raises, what is left for
    that frame is its samples as they came in, with [x || 0] applied --
    0 in the place of every NaN and every -0, hence the frame itself when
    it holds neither -- whatever [processFrame] had written before
    raising, and the score 0; where it returns, the frame is what it has
    written and the score what it has returned, whether an earlier or a
    later frame fails or not.  The outputs are made of these frames and
    the messages of these scores. *)
Theorem failed_frame_substitution (p : processor D) (calls : list call) :
  wf p -> is_Some (state p) ->
  let fs := Z.to_nat (frameSize p) in
  let stream := buf p ++ concat (fed <$> calls) in
  let ks := passes_of fs (length (buf p)) calls in
  let k := sum_list ks in
  let fw := framewise processFrame k fs (state p) stream in
  exists p' es,
    run processFrame p calls = Returns (p', es)
    /\ channels <$> es = written fw.2.*1 ks calls
    /\ concat (posted <$> es) = posted_of (frameCounter p) (vadInterval p) fw.2.*2
    /\ forall j, j < k ->
         let frame := take fs (drop (j * fs) stream) in
         length frame = fs
         /\ exists d,
             (framewise processFrame j fs (state p) stream).1 = Some d
             /\ match processFrame d frame with
                | Failed d' _ =>
                    fw.2 !! j = Some (map (fun x => or_zero (Some x)) frame, zero)
                    /\ (Forall (fun x => x <> nan /\ x <> negzero) frame ->
                        fw.2 !! j = Some (frame, zero))
                    /\ (framewise processFrame (S j) fs (state p) stream).1 = Some d'
                | Denoised d' w vad =>
                    fw.2 !! j = Some (overwrite frame w, vad)
                    /\ (framewise processFrame (S j) fs (state p) stream).1 = Some d'
                end.
Proof.
  intros Hwf Hst fs stream ks k fw.
  destruct (run_accounts D processFrame calls p Hwf Hst)
    as ([p' es] & Hrun & Hpost & _ & Hch & _).
  exists p', es. split; [exact Hrun |].
  unfold run_post in Hpost. cbn [fst snd] in Hpost, Hch.
  destruct Hpost as (_ & _ & _ & _ & _ & _ & Hk & _ & _ & _ & Hposts).
  fold fs stream ks k in Hk.
  split; [exact Hch |]. split; [exact Hposts |].
  intros j Hj frame. split.
  { unfold frame. rewrite length_take, length_drop. nia. }
  destruct (framewise_keeps_state D processFrame j fs (state p) stream Hst) as [d Hd].
  exists d. split; [exact Hd |].
  destruct (framewise_lookup D processFrame k fs j (state p) stream Hj) as [Hlook Hnext].
  cbv zeta in Hlook, Hnext. rewrite Hd in Hlook, Hnext. fold fw in Hlook.
  fold frame in Hlook, Hnext.
  destruct (processFrame d frame) as [d' w vad | d' w] eqn:Hres.
  - unfold transform_frame in Hlook, Hnext. rewrite Hres in Hlook, Hnext.
    split; [exact Hlook | exact Hnext].
  - unfold frame in Hres, Hlook, Hnext.
    rewrite (transform_frame_failed D processFrame d d' w _ fs Hres) in Hlook, Hnext.
    fold frame in Hlook. cbn [fst snd] in Hlook, Hnext.
    split; [exact Hlook |]. split; [| exact Hnext].
    intros Hclean. rewrite Hlook, (or_zero_keeps frame Hclean). reflexivity.
Qed.

(** C6 (amended): the constructor checks neither value: it raises
    exactly when the allocation of [work] does, that is when the frame
    size (480 when absent) is negative or above the largest length the
    engine allocates, and then with a [RangeError]; otherwise it returns
    a processor holding the frame size and the interval as given, zero
    and negative intervals and a zero frame size included. *)
Theorem constructor_checks_nothing (max_length : N)
        (options : option (processorOptions D)) :
  let po := default {| denoiseState := None; opt_frameSize := None;
                       opt_vadInterval := None |} options in
  let fs := default 480%Z (opt_frameSize po) in
  let vi := default 10%Z (opt_vadInterval po) in
  ((fs < 0 \/ length_limit max_length < fs)%Z
   <-> constructor max_length options = Throws RangeError)
  /\ ((0 <= fs <= length_limit max_length)%Z <->
      constructor max_length options
      = Returns {| state := denoiseState po; frameSize := fs; vadInterval := vi;
                   buf := []; work := replicate (Z.to_nat fs) zero;
                   frameCounter := 0%Z |}).
Proof.
  intros po fs vi.
  pose proof (constructor_returns D max_length options) as Hret.
  pose proof (constructor_raises D max_length options) as Hraise.
  cbv zeta in Hret, Hraise. fold po in Hret, Hraise. fold fs in Hret, Hraise.
  fold vi in Hret.
  destruct (Z_lt_le_dec fs 0) as [Hneg | Hnonneg];
    [| destruct (Z_lt_le_dec (length_limit max_length) fs) as [Hbig | Hfits]].
  - rewrite Hraise by lia. split; split; intros H; try reflexivity; try discriminate; lia.
  - rewrite Hraise by lia. split; split; intros H; try reflexivity; try discriminate; lia.
  - rewrite Hret by lia. split; split; intros H; try reflexivity; try discriminate; lia.
Qed.

End ProcessorProperties.

(** ** The throttled VAD posts *)

Section VadReporter.

Local Open Scope nat_scope.

Variable f : nat -> num.

Lemma framewise_scripted (k fs : nat) :
  forall (n : nat) (stream : list sample),
    (framewise (scripted f) k fs (Some n) stream).1 = Some (n + k)
    /\ (framewise (scripted f) k fs (Some n) stream).2.*2 = f <$> seq (S n) k.
Proof.
  induction k as [| k IH]; intros n stream.
  - simpl. rewrite Nat.add_0_r. split; reflexivity.
  - rewrite framewise_succ. cbv zeta.
    assert (Ht : transform_frame (scripted f) (Some n) (take fs stream) stream
                 = (Some (S n), overwrite (take fs stream) (take fs stream), f (S n)))
      by reflexivity.
    rewrite Ht. cbn [fst snd]. destruct (IH (S n) (drop fs stream)) as [H1 H2].
    rewrite H1. split; [f_equal; lia |].
    rewrite fmap_cons. cbn [snd]. rewrite H2. reflexivity.
Qed.

Lemma posted_of_scripted (interval : Z) (k : nat) :
  forall n : nat,
    posted_of (Z.of_nat n) interval (f <$> seq (S n) k)
    = (fun i => VadMessage (f i))
        <$> List.filter (fun i => rem_is_zero (Z.of_nat i) interval) (seq (S n) k).
Proof.
  induction k as [| k IH]; intros n; [reflexivity |].
  cbn [seq fmap list_fmap posted_of List.filter].
  replace (Z.of_nat n + 1)%Z with (Z.of_nat (S n)) by lia.
  rewrite IH.
  destruct (rem_is_zero (Z.of_nat (S n)) interval); reflexivity.
Qed.

(** C4: with a transform that scores the [i]-th frame it processes
    [f i], a processor constructed with an interval (and a positive
    frame size that can be allocated) completes any
    sequence of calls having counted exactly the frames processed and
    posted exactly the scores [f i] of the frames whose number [i] the
    interval divides, in order; with interval 10 and 25 frames processed
    these are the two messages carrying [f 10] and [f 20]. *)
Theorem vad_interval_reporting (max_length : N) (fs : option Z) (interval : Z)
        (calls : list call) :
  (0 < default 480 fs <= length_limit max_length)%Z ->
  exists p p' es,
    constructor max_length (options_with 0 fs (Some interval)) = Returns p
    /\ run (scripted f) p calls = Returns (p', es)
    /\ (let n := Z.to_nat (frameCounter p') in
        state p' = Some n
        /\ frameCounter p' = Z.of_nat n
        /\ concat (posted <$> es)
           = (fun i => VadMessage (f i))
               <$> List.filter (fun i => rem_is_zero (Z.of_nat i) interval) (seq 1 n)
        /\ (interval = 10%Z -> n = 25 ->
            concat (posted <$> es) = [VadMessage (f 10); VadMessage (f 20)])).
Proof.
  intros [Hpos Hmax].
  set (p := {| state := Some 0; frameSize := default 480%Z fs; vadInterval := interval;
               buf := []; work := replicate (Z.to_nat (default 480%Z fs)) zero;
               frameCounter := 0%Z |}).
  assert (Hctor : constructor max_length (options_with 0 fs (Some interval)) = Returns p).
  { apply (constructor_returns nat max_length).
    exact (conj (Z.lt_le_incl _ _ Hpos) Hmax). }
  assert (Hwf : wf p).
  { split; [exact Hpos |]. cbn [p work frameSize]. apply length_replicate. }
  destruct (run_spec nat (scripted f) calls p Hwf ltac:(eexists; reflexivity))
    as (k & [p' es] & Hrun & Hpost & _).
  exists p, p', es. split; [exact Hctor |]. split; [exact Hrun |].
  unfold run_post in Hpost. cbn [fst snd p state vadInterval frameCounter buf] in Hpost.
  destruct Hpost as (Hs & _ & _ & _ & _ & Hcount & _ & _ & _ & _ & Hposts).
  destruct (framewise_scripted k (Z.to_nat (frameSize p)) 0
              ([] ++ concat (fed <$> calls))) as [Hfw1 Hfw2].
  cbv zeta.
  assert (Hn : Z.to_nat (frameCounter p') = k) by lia.
  assert (Hgen : concat (posted <$> es)
                 = (fun i => VadMessage (f i))
                     <$> List.filter (fun i => rem_is_zero (Z.of_nat i) interval)
                                     (seq 1 (Z.to_nat (frameCounter p')))).
  { rewrite Hposts, Hfw2, Hn. apply (posted_of_scripted interval k 0). }
  repeat split.
  - rewrite Hs, Hfw1, Hn. reflexivity.
  - lia.
  - exact Hgen.
  - intros -> H25. rewrite Hgen, H25. reflexivity.
Qed.

End VadReporter.

(** ** Concrete runs *)

Section Concrete.

Local Open Scope nat_scope.

Example fresh_constructed :
  constructor example_max_length (options_with tt (Some 2%Z) None)
  = Returns (fresh tt 2).
Proof. reflexivity. Qed.

Lemma fresh_wf {D : Type} (d : D) (fs : Z) : (0 < fs)%Z -> wf (fresh d fs).
Proof.
  intros Hpos. split; [exact Hpos |]. simpl. apply length_replicate.
Qed.

(** What the constructor returns, with a positive frame size, is
    well-formed, with an empty buffer and the counter at 0. *)
Lemma constructor_wf {D : Type} (max_length : N) (options : option (processorOptions D))
      (p : processor D) :
  constructor max_length options = Returns p -> (0 < frameSize p)%Z ->
  wf p /\ buf p = [] /\ frameCounter p = 0%Z.
Proof.
  unfold constructor, new_Float32Array.
  destruct (_ || _); [discriminate |]. cbn [bind].
  destruct (_ || _); [discriminate |]. cbn [bind].
  intros Hp. injection Hp as <-.
  cbn [frameSize buf frameCounter]. intros Hpos.
  split; [split; [exact Hpos | apply length_replicate] | split; reflexivity].
Qed.

Lemma residual_bound_witness :
  exists p' e,
    process untouched (fresh tt 2) (Some [[smp 1; smp 2; smp 3]]) [[zero; zero]]
    = Returns (p', e)
    /\ wf p' /\ is_Some (state p') /\ frameSize p' = 2%Z
    /\ (0 <= Z.of_nat (length (buf p')))%Z
    /\ ((Z.of_nat (length (buf p')) < 2)%Z \/ copied e = 2)
    /\ ((0 < 2)%Z -> (3 <= 2)%Z -> 0 < 2 -> (Z.of_nat (length (buf p')) < 2)%Z).
Proof.
  apply (residual_bound unit untouched (fresh tt 2) [smp 1; smp 2; smp 3] [zero; zero]
                        [] []).
  - split; [reflexivity | reflexivity].
  - exists tt. reflexivity.
Defined.

(** C1 (counterexample): frame size 2, five samples in, room for one
    sample out: one frame is extracted, the loop stops on the full
    output, and three samples stay in the buffer. *)
Lemma residual_bound_counterexample :
  exists p' e,
    process untouched (fresh tt 2)
            (Some [[smp 1; smp 2; smp 3; smp 4; smp 5]]) [[zero]]
    = Returns (p', e)
    /\ buf p' = [smp 3; smp 4; smp 5]
    /\ copied e = 1
    /\ ~ (Z.of_nat (length (buf p')) < frameSize p')%Z.
Proof.
  eexists _, _. split; [vm_compute; reflexivity |].
  split; [reflexivity |]. split; [reflexivity |].
  vm_compute. discriminate.
Qed.

Lemma backlog_kept_witness :
  exists k p' e,
    process untouched (fresh tt 2)
            (Some [[smp 1; smp 2; smp 3; smp 4; smp 5]]) [[zero]]
    = Returns (p', e)
    /\ buf p' = drop (k * 2) [smp 1; smp 2; smp 3; smp 4; smp 5]
    /\ copied e = 1 `min` (k * 2)
    /\ k * 2 - copied e < 2.
Proof.
  destruct (backlog_kept unit untouched (fresh tt 2)
                         [smp 1; smp 2; smp 3; smp 4; smp 5] [zero] [] []
                         (conj eq_refl eq_refl) (ex_intro _ tt eq_refl))
    as (k & p' & e & Hp & _ & _ & Hb & _ & _ & _ & Hcop & _ & Htail & _).
  exists k, p', e. repeat split; assumption.
Defined.

(** A backlog of three samples with frame size 2 is consumed by the next
    call, oldest samples first. *)
Example backlog_consumed_next :
  exists p1 e1 p2 e2,
    process untouched (fresh tt 2)
            (Some [[smp 1; smp 2; smp 3; smp 4; smp 5]]) [[zero]]
    = Returns (p1, e1)
    /\ channels e1 = [[smp 1]]
    /\ buf p1 = [smp 3; smp 4; smp 5]
    /\ process untouched p1 (Some [[smp 6]]) [[zero; zero; zero; zero; zero]]
       = Returns (p2, e2)
    /\ channels e2 = [[smp 3; smp 4; smp 5; smp 6; zero]]
    /\ buf p2 = [].
Proof.
  eexists _, _, _, _. split; [vm_compute; reflexivity |].
  split; [reflexivity |]. split; [reflexivity |].
  split; [vm_compute; reflexivity |]. split; reflexivity.
Qed.

Lemma frame_accounting_witness :
  let calls := [(Some [[smp 1; smp 2; smp 3]], [[smp 9; smp 9; smp 9]]);
                (Some [[smp 4; smp 5; smp 6; smp 7; smp 8]], [[smp 9; smp 9; smp 9]])] in
  exists p' es,
    run untouched (fresh tt 4) calls = Returns (p', es)
    /\ copied <$> es = [0; 3]
    /\ channels <$> es = [[[zero; zero; zero]]; [[smp 1; smp 2; smp 3]]]
    /\ concat (from_frames <$> es) `sublist_of` [smp 1; smp 2; smp 3; smp 4]
    /\ length (concat (from_frames <$> es)) = sum_list (copied <$> es)
    /\ sum_list (copied <$> es) <= 8 `min` 6
    /\ frameCounter p' = 1%Z
    /\ buf p' = [smp 5; smp 6; smp 7; smp 8].
Proof.
  intros calls.
  destruct (frame_accounting unit untouched (fresh tt 4) calls
              (conj eq_refl eq_refl) (ex_intro _ tt eq_refl) eq_refl)
    as (p' & es & Hrun & Hcop & Hch & Hsub & Hcount & Hsum & _ & _ & Hc & _ & Hb & _).
  exists p', es. repeat split; assumption.
Defined.

(** C2 (counterexample): with the default frame size, 10 samples fed
    into a call offering 128 output samples copy nothing to the output,
    which is all zeros, where [min 10 128 = 10]; and with frame size 2
    the same four samples chunked as 3 + 1 or as 1 + 3, with two output
    samples per call either way, give different outputs and different
    numbers of copied samples. *)
Lemma frame_accounting_counterexample :
  (exists p' e,
     process untouched (fresh tt 480) (Some [replicate 10 (smp 1)]) [replicate 128 (smp 9)]
     = Returns (p', e)
     /\ copied e = 0 /\ channels e = [replicate 128 zero]
     /\ copied e <> 10 `min` 128 /\ 128 <> 10 `min` 128)
  /\ (exists pa esa pb esb,
        run untouched (fresh tt 2)
            [(Some [[smp 1; smp 2; smp 3]], [[zero; zero]]); (Some [[smp 4]], [[zero; zero]])]
        = Returns (pa, esa)
        /\ run untouched (fresh tt 2)
               [(Some [[smp 1]], [[zero; zero]]); (Some [[smp 2; smp 3; smp 4]], [[zero; zero]])]
           = Returns (pb, esb)
        /\ channels <$> esa = [[[smp 1; smp 2]]; [[smp 3; smp 4]]]
        /\ channels <$> esb = [[[zero; zero]]; [[smp 1; smp 2]]]
        /\ sum_list (copied <$> esa) = 4
        /\ sum_list (copied <$> esb) = 2
        /\ channels <$> esa <> channels <$> esb).
Proof.
  split.
  - eexists _, _. split; [vm_compute; reflexivity |].
    repeat split; try reflexivity; vm_compute; discriminate.
  - eexists _, _, _, _. split; [vm_compute; reflexivity |].
    split; [vm_compute; reflexivity |].
    repeat split; try reflexivity. vm_compute. discriminate.
Qed.

Lemma vad_interval_reporting_witness :
  let f := fun i : nat => smp (Z.of_nat i) in
  exists p' es,
    run (scripted f) (fresh 0 1) [(Some [replicate 25 (smp 7)], [replicate 25 zero])]
    = Returns (p', es)
    /\ frameCounter p' = 25%Z
    /\ concat (posted <$> es) = [VadMessage (f 10); VadMessage (f 20)].
Proof.
  intros f.
  destruct (vad_interval_reporting f example_max_length (Some 1%Z) 10%Z
              [(Some [replicate 25 (smp 7)], [replicate 25 zero])])
    as (p & p' & es & Hctor & Hrun & _ & _ & _ & H25);
    [split; [reflexivity | discriminate] |].
  injection Hctor as <-.
  assert (Hcount : frameCounter p' = 25%Z).
  { vm_compute in Hrun. injection Hrun as <- _. reflexivity. }
  exists p', es. split; [exact Hrun |]. split; [exact Hcount |].
  apply H25; [reflexivity |]. rewrite Hcount. reflexivity.
Defined.

(** A failing frame of ordinary samples goes out as it came in, and the
    score 0 is what gets posted for it. *)
Example failing_frame_passes_through :
  exists p' e,
    process always_failing
            {| state := Some tt; frameSize := 2%Z; vadInterval := 1%Z; buf := [];
               work := [zero; zero]; frameCounter := 0%Z |}
            (Some [[smp 1; smp 2; smp 3]]) [[zero; zero]]
    = Returns (p', e)
    /\ channels e = [[smp 1; smp 2]]
    /\ posted e = [VadMessage zero]
    /\ buf p' = [smp 3].
Proof.
  eexists _, _. split; [vm_compute; reflexivity |]. repeat split; reflexivity.
Qed.

Lemma failed_frame_substitution_witness :
  let p := with_interval 1 (fresh 0 2) in
  let calls := [(Some [[smp 1; smp 2; smp 3; smp 4; smp 5; smp 6]],
                 [[smp 9; smp 9; smp 9; smp 9; smp 9; smp 9]])] in
  exists p' es,
    run faltering p calls = Returns (p', es)
    /\ (framewise faltering 3 2 (Some 0) [smp 1; smp 2; smp 3; smp 4; smp 5; smp 6]).2 !! 1
       = Some ([smp 3; smp 4], zero)
    /\ channels <$> es = [[[smp 7; smp 7; smp 3; smp 4; smp 7; smp 7]]]
    /\ concat (posted <$> es)
       = [VadMessage (smp 1); VadMessage zero; VadMessage (smp 1)].
Proof.
  intros p calls.
  destruct (failed_frame_substitution nat faltering p calls
                                      (conj eq_refl eq_refl) (ex_intro _ 0 eq_refl))
    as (p' & es & Hrun & Hch & Hposts & Hframes).
  destruct (Hframes 1 ltac:(simpl; lia)) as (_ & d & Hd & Hframe).
  injection Hd as <-.
  destruct Hframe as (_ & Hkept & _).
  exists p', es. split; [exact Hrun |]. split; [| split; [exact Hch | exact Hposts]].
  apply Hkept.
  repeat (constructor; [split; vm_compute; discriminate |]). constructor.
Defined.

(** C5 (counterexample): a frame on which the transform raises and which
    holds NaN and -0 does not go out as it came in: the catch block
    writes 0 in their places.  The call returns and the other samples are
    the original ones. *)
Lemma failed_frame_substitution_counterexample :
  exists p' e,
    process always_failing (fresh tt 2) (Some [[nan; smp 1; negzero; smp 2]])
            [[smp 9; smp 9; smp 9; smp 9]]
    = Returns (p', e)
    /\ channels e = [[zero; smp 1; zero; smp 2]]
    /\ channels e <> [[nan; smp 1; negzero; smp 2]].
Proof.
  eexists _, _. split; [vm_compute; reflexivity |].
  split; [reflexivity |]. vm_compute. discriminate.
Qed.

(** C6 (counterexample): a zero frame size with a zero interval, and a
    negative interval, are accepted; what raises is a frame size that
    cannot be allocated, negative or too large, and it raises a
    [RangeError]. *)
Lemma constructor_checks_nothing_counterexample :
  constructor example_max_length (options_with tt (Some 0%Z) (Some 0%Z))
  = Returns {| state := Some tt; frameSize := 0%Z; vadInterval := 0%Z; buf := [];
               work := []; frameCounter := 0%Z |}
  /\ constructor example_max_length (options_with tt None (Some (-3)%Z))
     = Returns {| state := Some tt; frameSize := 480%Z; vadInterval := (-3)%Z; buf := [];
                  work := replicate 480 zero; frameCounter := 0%Z |}
  /\ constructor example_max_length (options_with tt (Some (-1)%Z) None)
     = Throws RangeError
  /\ constructor example_max_length (options_with tt (Some (2 ^ 53)%Z) None)
     = Throws RangeError.
Proof. repeat split; reflexivity. Qed.

Lemma zero_interval_posts_nothing_witness :
  exists p p' es,
    constructor example_max_length
                (Some {| denoiseState := Some tt; opt_frameSize := Some 2%Z;
                         opt_vadInterval := Some 0%Z |}) = Returns p
    /\ vadInterval p = 0%Z
    /\ run untouched p [(Some [[smp 1; smp 2; smp 3; smp 4]], [[zero; zero; zero; zero]])]
       = Returns (p', es)
    /\ length es = 1
    /\ Forall (fun e => posted e = []) es.
Proof.
  apply (zero_interval_posts_nothing unit untouched example_max_length (Some tt)
           (Some 2%Z)
           [(Some [[smp 1; smp 2; smp 3; smp 4]], [[zero; zero; zero; zero]])]).
  split; [reflexivity | discriminate].
Defined.

(** *** The detector *)

Example thresholds_as_doubles :
  speakingThresholdOn = S754_finite false 5764607523034235 (-57)
  /\ speakingThresholdOff = S754_finite false 5764607523034235 (-58)
  /\ vadSpeakingThreshold = S754_finite false 5404319552844595 (-53).
Proof. repeat split; reflexivity. Qed.

Example rms_of_silence : computeRms silence = zero.
Proof. vm_compute. reflexivity. Qed.

Example rms_of_murmur : computeRms murmur = S754_finite false 4503599627370496 (-57).
Proof. vm_compute. reflexivity. Qed.

Lemma dead_zone_keeps_state_witness :
  let envs := [uniform_env murmur None zero; uniform_env murmur None zero;
               uniform_env murmur None zero] in
  let alice := {| history := []; speaking := true |} in
  let m := [("alice"%string, alice); ("bob"%string, registered)] in
  Forall (fun s => s = true) (states_member envs "alice" alice)
  /\ exists obj', lookup_member "alice" (run_ticks envs m).1 = Some obj'
                  /\ speaking obj' = true.
Proof.
  intros envs alice m.
  apply (dead_zone_keeps_state envs m "alice" alice).
  - reflexivity.
  - repeat (constructor; [split; vm_compute; reflexivity |]). constructor.
  - repeat (constructor; [left; reflexivity |]). constructor.
Defined.

Lemma notifications_only_on_change_witness :
  let envs := [uniform_env murmur None zero; uniform_env murmur None zero] in
  let m := [("alice"%string, registered); ("bob"%string, registered)] in
  notifications_for "bob" (run_ticks envs m).2 = [].
Proof.
  intros envs m.
  refine (proj2 (proj2 (notifications_only_on_change envs m "bob" registered _ eq_refl)) _).
  - repeat constructor; rewrite ?list_elem_of_In; simpl; intuition discriminate.
  - repeat (constructor; [vm_compute; reflexivity |]). constructor.
Defined.

Lemma vad_promotes_rms_demotes_witness :
  let env1 := uniform_env silence (Some "me"%string) (decimal 8 1) in
  let env2 := uniform_env silence (Some "me"%string) zero in
  speaking (tick_member env1 "me" registered).1 = true
  /\ speaking (tick_member env2 "me" (tick_member env1 "me" registered).1).1 = false
  /\ (forall isLocal vad, vad_rule isLocal vad true = true).
Proof.
  intros env1 env2.
  apply (vad_promotes_rms_demotes env1 env2 "me" registered).
  - reflexivity.
  - reflexivity.
  - reflexivity.
  - reflexivity.
  - vm_compute. reflexivity.
  - vm_compute. reflexivity.
Defined.

(** C3 (counterexample): the local member, silent, with the VAD value
    0.8 and then 0: the first tick notifies Speaking, the second one
    notifies Quiet. *)
Lemma vad_promotes_rms_demotes_counterexample :
  let env1 := uniform_env silence (Some "me"%string) (decimal 8 1) in
  let env2 := uniform_env silence (Some "me"%string) zero in
  let m := [("me"%string, registered)] in
  run_ticks [env1] m
  = ([("me"%string, {| history := [zero]; speaking := true |})], [("me"%string, true)])
  /\ run_ticks [env1; env2] m
     = ([("me"%string, {| history := [zero; zero]; speaking := false |})],
        [("me"%string, true); ("me"%string, false)]).
Proof. split; vm_compute; reflexivity. Qed.

End Concrete.

(** * Further properties of the processor *)

Section ProcessorPaths.

Local Open Scope nat_scope.

Variable D : Type.
Variable processFrame : D -> list sample -> frame_result D.

Lemma or_zero_lookup_fill (input : list sample) (n : nat) :
  (fun i => or_zero (input !! i)) <$> seq 0 n
  = ((fun x => or_zero (Some x)) <$> take n input)
      ++ replicate (n - length input) zero.
Proof.
  unfold sample in *. apply list_eq. intros i.
  rewrite list_lookup_fmap.
  destruct (Nat.lt_ge_cases i n) as [Hin | Hout].
  - rewrite lookup_seq_lt by exact Hin. cbn [fmap option_fmap option_map Nat.add].
    destruct (Nat.lt_ge_cases i (length input)) as [Hlt | Hge].
    + rewrite lookup_app_l by (rewrite length_fmap, length_take; lia).
      rewrite list_lookup_fmap, lookup_take_lt by exact Hin.
      destruct (lookup_lt_is_Some_2 input i Hlt) as [x ->]. reflexivity.
    + rewrite lookup_app_r by (rewrite length_fmap, length_take; lia).
      rewrite length_fmap, length_take.
      rewrite (lookup_ge_None_2 input i Hge). cbn [or_zero].
      symmetry. apply lookup_replicate_2. lia.
  - rewrite lookup_seq_ge by exact Hout. cbn [fmap option_fmap option_map]. symmetry.
    apply lookup_ge_None_2.
    rewrite length_app, length_fmap, length_take, length_replicate. lia.
Qed.

Lemma process_without_state (p : processor D) (inCh0 outCh0 : list sample)
      (ins rest : list (list sample)) :
  state p = None ->
  process processFrame p (Some (inCh0 :: ins)) (outCh0 :: rest)
  = Returns (p, passthrough_effects (Some (inCh0 :: ins), outCh0 :: rest)).
Proof.
  intros Hst. unfold process. rewrite Hst.
  rewrite assign_from_spec by lia. rewrite take_0, Nat.sub_0_r. cbn [app].
  rewrite or_zero_lookup_fill. reflexivity.
Qed.

(** X1: without a denoise state a call copies the input to the output,
    sample by sample with falsy samples as 0, pads the output with zeros
    where the input is shorter, and leaves the processor as it was:
    nothing is buffered, counted or posted. *)
Theorem passthrough_without_state (p : processor D) (inCh0 outCh0 : list sample)
        (ins rest : list (list sample)) :
  state p = None ->
  process processFrame p (Some (inCh0 :: ins)) (outCh0 :: rest)
  = Returns (p, {| channels := (((fun x => or_zero (Some x)) <$> take (length outCh0) inCh0)
                                  ++ replicate (length outCh0 - length inCh0) zero) :: rest;
                   posted := []; copied := 0 |})
  /\ (length outCh0 <= length inCh0 ->
      Forall (fun x => truthy x = true \/ x = zero) inCh0 ->
      ((fun x => or_zero (Some x)) <$> take (length outCh0) inCh0)
        ++ replicate (length outCh0 - length inCh0) zero
      = take (length outCh0) inCh0).
Proof.
  intros Hst. split.
  - apply process_without_state, Hst.
  - intros Hlen Hclean.
    replace (length outCh0 - length inCh0) with 0 by lia. cbn [replicate].
    rewrite app_nil_r.
    assert (Hall : Forall (fun x => truthy x = true \/ x = zero) (take (length outCh0) inCh0))
      by (apply Forall_take, Hclean).
    induction Hall as [| x l Hx _ IH]; [reflexivity |].
    rewrite fmap_cons, IH. f_equal.
    destruct Hx as [Ht | ->]; [simpl; rewrite Ht |]; reflexivity.
Qed.

Lemma run_app (calls1 calls2 : list call) :
  forall p : processor D,
    run processFrame p (calls1 ++ calls2)
    = do '(p1, es1) <- run processFrame p calls1;
      do '(p2, es2) <- run processFrame p1 calls2;
      Returns (p2, es1 ++ es2).
Proof.
  induction calls1 as [| [input output] calls1 IH]; intros p.
  - cbn [app run bind]. destruct (run processFrame p calls2) as [[p2 es2] | |]; reflexivity.
  - cbn [app run]. destruct (process processFrame p input output) as [[p1 e] | |];
      cbn [bind]; try reflexivity.
    rewrite IH. destruct (run processFrame p1 calls1) as [[p2 es1] | |];
      cbn [bind]; try reflexivity.
    destruct (run processFrame p2 calls2) as [[p3 es2] | |]; reflexivity.
Qed.

(** X2: a call whose input is absent or has no channel fills output
    channel 0 with zeros and touches nothing else, so a gap in the input
    anywhere in a sequence of calls changes neither the buffer, the
    counter and the denoise state the sequence ends with, nor what the
    other calls write and post: the buffered samples are neither flushed
    nor lost. *)
Theorem silent_call_is_transparent (p : processor D) (calls1 calls2 : list call)
        (input : option (list (list sample))) (output : list (list sample)) :
  wf p -> input = None \/ input = Some [] ->
  exists p1 es1 p2 es2,
    run processFrame p calls1 = Returns (p1, es1)
    /\ run processFrame p1 calls2 = Returns (p2, es2)
    /\ run processFrame p (calls1 ++ calls2) = Returns (p2, es1 ++ es2)
    /\ run processFrame p (calls1 ++ (input, output) :: calls2)
       = Returns (p2, es1 ++ silent_effects output :: es2).
Proof.
  intros Hwf Hinput.
  destruct (run_returns D processFrame calls1 p Hwf) as (p1 & es1 & Hrun1 & Hwf1).
  destruct (run_returns D processFrame calls2 p1 Hwf1) as (p2 & es2 & Hrun2 & _).
  exists p1, es1, p2, es2. split; [exact Hrun1 |]. split; [exact Hrun2 |].
  rewrite !run_app, Hrun1. cbn [bind]. rewrite Hrun2. cbn [bind]. split; [reflexivity |].
  cbn [run].
  assert (Hp : process processFrame p1 input output = Returns (p1, silent_effects output)).
  { destruct Hinput as [-> | ->]; reflexivity. }
  rewrite Hp. cbn [bind]. rewrite Hrun2. reflexivity.
Qed.

(** X3: while fewer than [frameSize] samples are buffered, input
    included, a call only appends its input to the buffer: the output is
    all zeros, the transform is not called, nothing is counted or
    posted. *)
Theorem priming_call (p : processor D) (inCh0 outCh0 : list sample)
        (ins rest : list (list sample)) :
  is_Some (state p) ->
  (Z.of_nat (length (buf p) + length inCh0) < frameSize p)%Z ->
  process processFrame p (Some (inCh0 :: ins)) (outCh0 :: rest)
  = Returns ({| state := state p; frameSize := frameSize p; vadInterval := vadInterval p;
                buf := buf p ++ inCh0; work := work p; frameCounter := frameCounter p |},
             {| channels := replicate (length outCh0) zero :: rest;
                posted := []; copied := 0 |}).
Proof.
  intros [d Hst] Hshort. unfold process. rewrite Hst.
  set (p1 := {| state := Some d; frameSize := frameSize p; vadInterval := vadInterval p;
                buf := buf p ++ inCh0; work := work p; frameCounter := frameCounter p |}).
  assert (Hcond : loop_condition p1 outCh0 0 = false).
  { apply loop_condition_false. left. cbn [p1 buf frameSize]. rewrite length_app. lia. }
  assert (Hloop : frame_loop processFrame (length (buf p ++ inCh0)) p1 outCh0 0 []
                  = Returns (p1, outCh0, 0, [])).
  { destruct (length (buf p ++ inCh0)); cbn [frame_loop]; rewrite Hcond; reflexivity. }
  rewrite Hloop. cbn [bind]. rewrite zero_fill_spec by lia.
  rewrite take_0, Nat.sub_0_r. reflexivity.
Qed.

End ProcessorPaths.

Section ProcessorCounts.

Local Open Scope nat_scope.

Variable D : Type.
Variable processFrame : D -> list sample -> frame_result D.

(** X4: the number of frames a call processes is the number of whole
    frames buffered, input included, or the number of frames needed to
    fill the output if that is less; the counter advances by it and each
    frame takes [frameSize] samples off the buffer. *)
Theorem frames_per_call (p : processor D) (inCh0 outCh0 : list sample)
        (ins rest : list (list sample)) :
  wf p -> is_Some (state p) ->
  let fs := Z.to_nat (frameSize p) in
  let k := ((length (buf p) + length inCh0) / fs) `min` ((length outCh0 + fs - 1) / fs) in
  exists p' e,
    process processFrame p (Some (inCh0 :: ins)) (outCh0 :: rest) = Returns (p', e)
    /\ frameCounter p' = (frameCounter p + Z.of_nat k)%Z
    /\ length (buf p') = length (buf p) + length inCh0 - k * fs
    /\ copied e = length outCh0 `min` (k * fs).
Proof.
  intros Hwf Hst fs k.
  destruct (process_spec D processFrame p inCh0 outCh0 ins rest Hwf Hst)
    as (k0 & [p' e] & Hp & Hcall).
  exists p', e. split; [exact Hp |].
  unfold call_post in Hcall. cbn [fst snd] in Hcall. fold fs in Hcall.
  destruct Hcall as (_ & _ & _ & Hb & _ & Hc & Hk & Hcop & Hexit & Hlast & _).
  rewrite Hb, length_drop, length_app in Hexit. rewrite length_app in Hk.
  assert (Hk0 : k0 = k).
  { unfold k. apply passes_unique.
    - destruct Hwf as [Hpos _]. unfold fs. lia.
    - exact Hk.
    - destruct Hexit as [Hshort | Hfull]; [left; exact Hshort | right; lia].
    - exact Hlast. }
  subst k0. repeat split.
  - exact Hc.
  - rewrite Hb, length_drop, length_app. reflexivity.
  - exact Hcop.
Qed.

(** X5: when the output channel is not longer than a frame, as with the
    128-sample blocks of an audio worklet and frames of 480, a call
    processes at most one frame; when a whole frame is buffered it
    processes exactly one, writes the first samples of the transformed
    frame, as many as the output holds, and the rest of that frame never
    reaches any output. *)
Theorem one_frame_per_call (p : processor D) (inCh0 outCh0 : list sample)
        (ins rest : list (list sample)) :
  wf p -> is_Some (state p) ->
  0 < length outCh0 -> (Z.of_nat (length outCh0) <= frameSize p)%Z ->
  (frameSize p <= Z.of_nat (length (buf p) + length inCh0))%Z ->
  let fs := Z.to_nat (frameSize p) in
  let stream := buf p ++ inCh0 in
  let t := transform_frame processFrame (state p) (take fs stream) stream in
  exists p' e,
    process processFrame p (Some (inCh0 :: ins)) (outCh0 :: rest) = Returns (p', e)
    /\ frameCounter p' = (frameCounter p + 1)%Z
    /\ state p' = t.1.1
    /\ buf p' = drop fs stream
    /\ channels e = take (length outCh0) t.1.2 :: rest
    /\ copied e = length outCh0
    /\ length t.1.2 - copied e = fs - length outCh0.
Proof.
  intros Hwf Hst Hout Hsmall Hfull fs stream t.
  destruct (process_spec D processFrame p inCh0 outCh0 ins rest Hwf Hst)
    as (k & [p' e] & Hp & Hcall).
  exists p', e. split; [exact Hp |].
  unfold call_post in Hcall. cbn [fst snd] in Hcall. fold fs stream in Hcall.
  destruct Hcall as (Hs & _ & _ & Hb & _ & Hc & Hk & Hcop & Hexit & Hlast & Hch & _).
  destruct Hwf as [Hpos _].
  assert (Hlen : length stream = length (buf p) + length inCh0)
    by (unfold stream; apply length_app).
  assert (Hk1 : k = 1).
  { rewrite Hb, length_drop in Hexit.
    destruct k as [| [| k]]; [exfalso | reflexivity | exfalso].
    - destruct Hexit as [Hshort | Hdone]; [unfold fs in *; lia | lia].
    - specialize (Hlast ltac:(lia)). unfold fs in *. simpl in Hlast. nia. }
  subst k. rewrite framewise_succ in Hs, Hch. cbv zeta in Hs, Hch.
  fold t in Hs, Hch. cbn [framewise fst snd] in Hs, Hch.
  rewrite fmap_cons, concat_cons in Hch. cbn [fst fmap list_fmap concat] in Hch.
  rewrite app_nil_r in Hch.
  assert (Ht : length t.1.2 = fs).
  { unfold t. rewrite transform_frame_length, length_take. unfold fs in *. lia. }
  repeat split.
  - exact Hc.
  - exact Hs.
  - rewrite Hb. f_equal. lia.
  - rewrite Hch. replace (length outCh0 - 1 * fs) with 0 by (unfold fs; lia).
    cbn [replicate]. rewrite app_nil_r. reflexivity.
  - rewrite Hcop. unfold fs. lia.
  - rewrite Hcop, Ht. unfold fs. lia.
Qed.

(** X6: whatever the path taken, a call on a well-formed processor
    returns with as many output channels as before, each as long as
    before, the channels after the first untouched, the frame size and
    the interval unchanged and the counter not decreased. *)
Theorem call_keeps_shape (p : processor D) (input : option (list (list sample)))
        (output : list (list sample)) :
  wf p ->
  exists p' e,
    process processFrame p input output = Returns (p', e)
    /\ length <$> channels e = length <$> output
    /\ tail (channels e) = tail output
    /\ frameSize p' = frameSize p
    /\ vadInterval p' = vadInterval p
    /\ (frameCounter p <= frameCounter p')%Z.
Proof.
  intros Hwf.
  assert (Hsilent : process processFrame p input output = Returns (p, silent_effects output) ->
                    exists p' e,
                      process processFrame p input output = Returns (p', e)
                      /\ length <$> channels e = length <$> output
                      /\ tail (channels e) = tail output
                      /\ frameSize p' = frameSize p
                      /\ vadInterval p' = vadInterval p
                      /\ (frameCounter p <= frameCounter p')%Z).
  { intros Hp. exists p, (silent_effects output). split; [exact Hp |].
    destruct output as [| o rest]; cbn [silent_effects channels tail fmap list_fmap];
      rewrite ?length_replicate; repeat split; lia. }
  destruct input as [[| i ins] |]; [apply Hsilent; reflexivity | | apply Hsilent; reflexivity].
  destruct output as [| o rest].
  { eexists _, _. split; [reflexivity |]. cbn [channels]. repeat split; lia. }
  clear Hsilent. destruct (state p) as [d |] eqn:Hst.
  - destruct (process_spec D processFrame p i o ins rest Hwf ltac:(eauto))
      as (k & [p' e] & Hp & Hcall).
    exists p', e. split; [exact Hp |].
    unfold call_post in Hcall. cbn [fst snd] in Hcall.
    destruct Hcall as (_ & Hfs & Hvi & _ & _ & Hc & Hk & _ & _ & _ & Hch & _).
    rewrite Hch. cbn [tail fmap list_fmap].
    rewrite length_app, length_take, length_replicate.
    rewrite framewise_concat_length by exact Hk. unfold sample in *.
    repeat split; try assumption; [f_equal; lia | lia].
  - pose proof (process_without_state D processFrame p i o ins rest Hst) as Hp.
    eexists _, _. split; [exact Hp |]. cbn [passthrough_effects channels tail fmap list_fmap].
    rewrite length_app, length_fmap, length_take, length_replicate. unfold sample in *.
    repeat split; try reflexivity; try lia. f_equal. lia.
Qed.

(** X7: a frame size of 0 is accepted by the constructor, and then a
    call with a denoise state, an input channel and a non-empty output
    channel never returns: the loop is entered and no number of passes
    ends it. *)
Theorem zero_frame_size_never_returns (max_length : N) (d : D) (interval : option Z)
        (inCh0 outCh0 : list sample) (ins rest : list (list sample)) :
  outCh0 <> [] ->
  exists p,
    constructor max_length (options_with d (Some 0%Z) interval) = Returns p
    /\ (forall fuel,
           frame_loop processFrame fuel
                      {| state := state p; frameSize := frameSize p;
                         vadInterval := vadInterval p; buf := buf p ++ inCh0;
                         work := work p; frameCounter := frameCounter p |}
                      outCh0 0 [] = Hangs)
    /\ process processFrame p (Some (inCh0 :: ins)) (outCh0 :: rest) = Hangs.
Proof.
  intros Hout. eexists.
  split; [apply (constructor_returns D max_length);
          split; [reflexivity | apply length_limit_nonneg] |].
  assert (Hlen : 0 < length outCh0) by (destruct outCh0; [congruence | simpl; lia]).
  split.
  - intros fuel. apply zero_frame_size_hangs; [reflexivity | reflexivity | exact Hlen].
  - unfold process. cbn [state].
    rewrite zero_frame_size_hangs; [reflexivity | reflexivity | reflexivity | exact Hlen].
Qed.

End ProcessorCounts.

Section ProcessorIntervals.

Local Open Scope nat_scope.

Lemma framewise_recording (k fs : nat) :
  forall (log : list nat) (stream : list sample),
    k * fs <= length stream ->
    (framewise recording k fs (Some log) stream).1 = Some (log ++ replicate k fs).
Proof.
  induction k as [| k IH]; intros log stream Hk.
  - simpl. rewrite app_nil_r. reflexivity.
  - rewrite framewise_succ. cbv zeta.
    assert (Ht : transform_frame recording (Some log) (take fs stream) stream
                 = (Some (log ++ [length (take fs stream)]),
                    overwrite (take fs stream) (take fs stream), zero)) by reflexivity.
    rewrite Ht. cbn [fst]. rewrite IH by (rewrite length_drop; lia).
    rewrite length_take, <- app_assoc. do 2 f_equal. cbn [replicate app]. f_equal. lia.
Qed.

(** X8: [processFrame] is only ever given whole frames: with a transform
    that notes the length of each frame it receives, every length noted
    over any sequence of calls is [frameSize], and there are as many of
    them as the counter has advanced. *)
Theorem frames_are_whole (p : processor (list nat)) (calls : list call) (log : list nat) :
  wf p -> state p = Some log ->
  exists k p' es,
    run recording p calls = Returns (p', es)
    /\ state p' = Some (log ++ replicate k (Z.to_nat (frameSize p)))
    /\ frameCounter p' = (frameCounter p + Z.of_nat k)%Z.
Proof.
  intros Hwf Hst.
  destruct (run_spec (list nat) recording calls p Hwf ltac:(eauto))
    as (k & [p' es] & Hrun & Hpost & _).
  exists k, p', es. split; [exact Hrun |].
  unfold run_post in Hpost. cbn [fst snd] in Hpost.
  destruct Hpost as (Hs & _ & _ & _ & _ & Hc & Hk & _).
  split; [| exact Hc].
  rewrite Hs, Hst. apply framewise_recording, Hk.
Qed.

Variable D : Type.
Variable processFrame : D -> list sample -> frame_result D.

Variables v v' : Z.
Hypothesis same_boundaries : forall c : Z, rem_is_zero c v' = rem_is_zero c v.

Lemma frame_loop_interval (fuel : nat) :
  forall (p : processor D) (out : list sample) (oi : nat) (posts : list message),
    match frame_loop processFrame fuel (with_interval v p) out oi posts with
    | Returns (q, out', oi', ms) =>
        vadInterval q = v
        /\ frame_loop processFrame fuel (with_interval v' p) out oi posts
           = Returns (with_interval v' q, out', oi', ms)
    | Throws e => frame_loop processFrame fuel (with_interval v' p) out oi posts = Throws e
    | Hangs => frame_loop processFrame fuel (with_interval v' p) out oi posts = Hangs
    end.
Proof.
  induction fuel as [| fuel IH]; intros p out oi posts; cbn [frame_loop].
  all: change (loop_condition (with_interval v' p) out oi)
    with (loop_condition (with_interval v p) out oi).
  all: destruct (loop_condition (with_interval v p) out oi); try (split; reflexivity).
  unfold frame_body. cbn [with_interval state frameSize vadInterval buf work frameCounter].
  destruct (ta_set (work p) (take (Z.to_nat (frameSize p)) (buf p)) 0)
    as [work1 | e |]; cbn [bind]; try reflexivity.
  destruct (transform_frame processFrame (state p) work1 (buf p)) as [[d' work2] vad].
  destruct (ta_set out (take (length work2 `min` (length out - oi)) work2) oi)
    as [out' | e |]; cbn [bind]; try reflexivity.
  rewrite same_boundaries.
  exact (IH {| state := d'; frameSize := frameSize p; vadInterval := v;
               buf := drop (Z.to_nat (frameSize p)) (buf p); work := work2;
               frameCounter := (frameCounter p + 1)%Z |} out' _ _).
Qed.

Lemma process_interval (p : processor D) (input : option (list (list sample)))
      (output : list (list sample)) :
  match process processFrame (with_interval v p) input output with
  | Returns (q, e) =>
      vadInterval q = v
      /\ process processFrame (with_interval v' p) input output
         = Returns (with_interval v' q, e)
  | Throws e => process processFrame (with_interval v' p) input output = Throws e
  | Hangs => process processFrame (with_interval v' p) input output = Hangs
  end.
Proof.
  unfold process.
  destruct input as [[| i ins] |]; try (split; reflexivity).
  destruct output as [| o rest]; try (split; reflexivity).
  cbn [with_interval state frameSize vadInterval buf work frameCounter].
  destruct (state p) as [d |] eqn:Hst; [| split; reflexivity].
  pose proof (frame_loop_interval (length (buf p ++ i))
                {| state := Some d; frameSize := frameSize p; vadInterval := v;
                   buf := buf p ++ i; work := work p; frameCounter := frameCounter p |}
                o 0 []) as Hloop.
  unfold with_interval in Hloop.
  cbn [state frameSize vadInterval buf work frameCounter] in Hloop.
  destruct (frame_loop processFrame (length (buf p ++ i)) _ o 0 [])
    as [[[[q out2] oi2] ms] | e |].
  - destruct Hloop as [Hq Hloop]. rewrite Hloop. cbn [bind]. split; [exact Hq | reflexivity].
  - rewrite Hloop. reflexivity.
  - rewrite Hloop. reflexivity.
Qed.

Lemma with_interval_same (q : processor D) : vadInterval q = v -> with_interval v q = q.
Proof. intros <-. destruct q. reflexivity. Qed.

Lemma run_interval (calls : list call) :
  forall p : processor D,
    match run processFrame (with_interval v p) calls with
    | Returns (q, es) =>
        run processFrame (with_interval v' p) calls = Returns (with_interval v' q, es)
    | Throws e => run processFrame (with_interval v' p) calls = Throws e
    | Hangs => run processFrame (with_interval v' p) calls = Hangs
    end.
Proof.
  induction calls as [| [input output] calls IH]; intros p; [reflexivity |].
  cbn [run]. pose proof (process_interval p input output) as Hp.
  destruct (process processFrame (with_interval v p) input output) as [[q e] | err |].
  - destruct Hp as [Hq Hp]. rewrite Hp. cbn [bind].
    specialize (IH q). rewrite (with_interval_same q Hq) in IH.
    destruct (run processFrame q calls) as [[q2 es] | err |];
      rewrite IH; reflexivity.
  - rewrite Hp. reflexivity.
  - rewrite Hp. reflexivity.
Qed.

End ProcessorIntervals.

Section NegativeInterval.

Variable D : Type.
Variable processFrame : D -> list sample -> frame_result D.

Lemma rem_is_zero_opp (c interval : Z) :
  rem_is_zero c (- interval) = rem_is_zero c interval.
Proof.
  unfold rem_is_zero, rem.
  destruct (Z.eqb_spec interval 0) as [-> | Hne]; [reflexivity |].
  destruct (Z.eqb_spec (- interval) 0) as [Hz | _]; [lia |].
  rewrite Z.rem_opp_r by exact Hne. reflexivity.
Qed.

(** X9: the sign of the interval does not matter: a processor with the
    interval [-n], which the constructor accepts, goes through any
    sequence of calls exactly as the processor with the interval [n]
    does, with the same outputs and the same messages posted at the
    same frames. *)
Theorem negative_interval_as_positive (p : processor D) (calls : list call) (n : Z) :
  wf p ->
  exists p' es,
    run processFrame (with_interval n p) calls = Returns (p', es)
    /\ run processFrame (with_interval (- n) p) calls
       = Returns (with_interval (- n) p', es).
Proof.
  intros Hwf.
  destruct (run_returns D processFrame calls (with_interval n p) Hwf)
    as (p' & es & Hrun & _).
  exists p', es. split; [exact Hrun |].
  pose proof (run_interval D processFrame n (- n) (fun c => rem_is_zero_opp c n) calls p)
    as Hint.
  rewrite Hrun in Hint. exact Hint.
Qed.

End NegativeInterval.

(** * The worklet and the detector together *)

Section MainThread.

Local Open Scope nat_scope.

Import Receiver.

Variable D : Type.
Variable processFrame : D -> list sample -> frame_result D.

Lemma run_passthrough (calls : list call) (p : processor D) :
  state p = None ->
  run processFrame p calls = Returns (p, passthrough_effects <$> calls).
Proof.
  intros Hst. induction calls as [| [input output] calls IH]; [reflexivity |].
  cbn [run].
  assert (Hp : process processFrame p input output
               = Returns (p, passthrough_effects (input, output))).
  { destruct input as [[| i ins] |]; try reflexivity.
    destruct output as [| o rest].
    - unfold process. reflexivity.
    - apply (process_without_state D processFrame p i o ins rest Hst). }
  rewrite Hp. cbn [bind]. rewrite IH. reflexivity.
Qed.

Lemma passthrough_posts_nothing (calls : list call) :
  concat (posted <$> (passthrough_effects <$> calls)) = [].
Proof.
  induction calls as [| [input output] calls IH]; [reflexivity |].
  rewrite !fmap_cons, concat_cons, IH.
  destruct input as [[| i ins] |], output as [| o rest]; reflexivity.
Qed.

(** X10: with the options [Noise_Suppression] gives the worklet node,
    which hold no denoise state, the processor is built for any frame
    size that is not negative and not above the largest length the
    engine allocates, and every call is a pass-through: the run
    leaves the processor as built, with an empty buffer and the counter
    at 0, and each call writes its input, falsy samples as 0, padded with
    zeros, without calling any transform. *)
Theorem worklet_as_wired_passes_through (max_length : N) (rnFrameSize : Z)
        (calls : list call) :
  (0 <= rnFrameSize <= length_limit max_length)%Z ->
  exists p,
    constructor max_length (worklet_options rnFrameSize) = Returns p
    /\ state p = None /\ buf p = [] /\ frameCounter p = 0%Z
    /\ run processFrame p calls = Returns (p, passthrough_effects <$> calls).
Proof.
  intros Hfs.
  assert (Hctor : constructor max_length (worklet_options (D := D) rnFrameSize)
                  = Returns {| state := None; frameSize := rnFrameSize; vadInterval := 10%Z;
                               buf := []; work := replicate (Z.to_nat rnFrameSize) zero;
                               frameCounter := 0%Z |}).
  { apply (constructor_returns D max_length). exact Hfs. }
  eexists. split; [exact Hctor |]. repeat split.
  apply run_passthrough. reflexivity.
Qed.

(** X11: with those options no VAD message is ever posted, so
    [latestVadValue] keeps the 0 it starts with and the VAD step of the
    detector never applies: the local member's state is decided by the
    RMS rule alone, like a remote member's. *)
Theorem worklet_as_wired_never_reinforces (max_length : N) (rnFrameSize : Z)
        (calls : list call) :
  (0 <= rnFrameSize <= length_limit max_length)%Z ->
  exists p p' es,
    constructor max_length (worklet_options rnFrameSize) = Returns p
    /\ run processFrame p calls = Returns (p', es)
    /\ concat (posted <$> es) = []
    /\ deliver zero (concat (posted <$> es)) = zero
    /\ forall prev avg isLocal,
        decide_next prev avg isLocal (deliver zero (concat (posted <$> es)))
        = rms_rule prev avg.
Proof.
  intros Hfs.
  assert (Hctor : constructor max_length (worklet_options (D := D) rnFrameSize)
                  = Returns {| state := None; frameSize := rnFrameSize; vadInterval := 10%Z;
                               buf := []; work := replicate (Z.to_nat rnFrameSize) zero;
                               frameCounter := 0%Z |}).
  { apply (constructor_returns D max_length). exact Hfs. }
  eexists _, _, _. split; [exact Hctor |].
  split; [apply run_passthrough; reflexivity |].
  rewrite passthrough_posts_nothing.
  split; [reflexivity |]. split; [reflexivity |].
  intros prev avg isLocal. unfold decide_next. apply vad_rule_no_promotion.
  right. reflexivity.
Qed.

End MainThread.

Section LatestVad.

Local Open Scope nat_scope.

Import Receiver.

Variable f : nat -> num.

Lemma rem_is_zero_nat (a b : nat) :
  0 < b -> rem_is_zero (Z.of_nat a) (Z.of_nat b) = (a mod b =? 0).
Proof.
  intros Hb. unfold rem_is_zero, rem.
  destruct (Z.eqb_spec (Z.of_nat b) 0) as [Hz | _]; [lia |].
  rewrite Z.rem_mod_nonneg by lia. rewrite <- Nat2Z.inj_mod.
  destruct (a mod b); reflexivity.
Qed.

Lemma deliver_app (latest : num) (ms1 ms2 : list message) :
  deliver latest (ms1 ++ ms2) = deliver (deliver latest ms1) ms2.
Proof. unfold deliver. apply foldl_app. Qed.

Lemma deliver_boundaries (latest : num) (interval n : nat) :
  0 < interval ->
  deliver latest
          ((fun i => VadMessage (f i))
             <$> List.filter (fun i => rem_is_zero (Z.of_nat i) (Z.of_nat interval))
                             (seq 1 n))
  = if n <? interval then latest else f (interval * (n / interval)).
Proof.
  intros Hv. induction n as [| n IH].
  - simpl. destruct interval; [lia | reflexivity].
  - rewrite seq_S, List.filter_app, fmap_app, deliver_app, IH.
    cbn [List.filter Nat.add]. rewrite (rem_is_zero_nat (S n) interval Hv).
    pose proof (Nat.div_mod_eq (S n) interval) as Hs.
    pose proof (Nat.div_mod_eq n interval) as Hn.
    pose proof (Nat.mod_upper_bound (S n) interval ltac:(lia)) as Hsb.
    pose proof (Nat.mod_upper_bound n interval ltac:(lia)) as Hnb.
    destruct (Nat.eqb_spec (S n mod interval) 0) as [Hdiv | Hnot].
    + cbn [fmap list_fmap deliver foldl posted_data onmessage ev_type ev_value].
      change (String.eqb "vad" "vad") with true. cbv iota.
      rewrite Hdiv, Nat.add_0_r in Hs.
      destruct (Nat.ltb_spec (S n) interval) as [Hlt | _].
      * exfalso. destruct (S n / interval); nia.
      * rewrite <- Hs. reflexivity.
    + cbn [fmap list_fmap deliver foldl].
      destruct (Nat.ltb_spec n interval) as [Hlt | Hge],
               (Nat.ltb_spec (S n) interval) as [Hlt' | Hge']; try lia.
      * reflexivity.
      * exfalso. assert (S n = interval) by lia.
        apply Hnot. subst interval. apply Nat.Div0.mod_same.
      * f_equal. f_equal. nia.
Qed.

(** X12: with a transform that scores the [i]-th frame [f i] and a
    positive interval, once the messages of any sequence of calls are
    delivered [latestVadValue] is the score of the last frame whose
    number the interval divides, and is still what it was when fewer
    frames than the interval have been processed. *)
Theorem latest_vad_is_last_boundary (max_length : N) (fs : option Z) (interval : nat)
        (calls : list call) (latest : num) :
  (0 < default 480 fs <= length_limit max_length)%Z -> 0 < interval ->
  exists p p' es,
    constructor max_length (options_with 0 fs (Some (Z.of_nat interval))) = Returns p
    /\ run (scripted f) p calls = Returns (p', es)
    /\ (let n := Z.to_nat (frameCounter p') in
        deliver latest (concat (posted <$> es))
        = if n <? interval then latest else f (interval * (n / interval))).
Proof.
  intros [Hpos Hmax] Hv.
  set (p := {| state := Some 0; frameSize := default 480%Z fs;
               vadInterval := Z.of_nat interval; buf := [];
               work := replicate (Z.to_nat (default 480%Z fs)) zero;
               frameCounter := 0%Z |}).
  assert (Hctor : constructor max_length (options_with 0 fs (Some (Z.of_nat interval)))
                  = Returns p).
  { apply (constructor_returns nat max_length).
    exact (conj (Z.lt_le_incl _ _ Hpos) Hmax). }
  assert (Hwf : wf p).
  { split; [exact Hpos |]. cbn [p work frameSize]. apply length_replicate. }
  destruct (run_spec nat (scripted f) calls p Hwf ltac:(eexists; reflexivity))
    as (k & [p' es] & Hrun & Hpost & _).
  exists p, p', es. split; [exact Hctor |]. split; [exact Hrun |].
  unfold run_post in Hpost. cbn [fst snd p state vadInterval frameCounter buf] in Hpost.
  destruct Hpost as (_ & _ & _ & _ & _ & Hcount & _ & _ & _ & _ & Hposts).
  destruct (framewise_scripted f k (Z.to_nat (frameSize p)) 0
              ([] ++ concat (fed <$> calls))) as [_ Hfw2].
  cbv zeta. replace (Z.to_nat (frameCounter p')) with k by lia.
  rewrite <- (deliver_boundaries latest interval k Hv). f_equal.
  rewrite Hposts, Hfw2. apply (posted_of_scripted f (Z.of_nat interval) k 0).
Qed.

End LatestVad.

(** * Further properties of the detector *)

Section DetectorLifecycle.

Local Open Scope nat_scope.

Lemma push_history_window (h : list num) (rms : num) :
  length h <= rmsHistoryLength ->
  push_history h rms = drop (length (h ++ [rms]) - rmsHistoryLength) (h ++ [rms]).
Proof.
  intros Hh. unfold push_history, rmsHistoryLength in *.
  rewrite length_app. cbn [length].
  destruct (Nat.ltb_spec 5 (length h + 1)) as [Hfull | Hroom].
  - replace (length h + 1 - 5) with 1 by lia.
    destruct (h ++ [rms]); reflexivity.
  - replace (length h + 1 - 5) with 0 by lia. reflexivity.
Qed.

Lemma tick_member_history (env : tickEnv) (memberId : string) (obj : analyzerObj) :
  history (tick_member env memberId obj).1
  = push_history (history obj) (computeRms (byteData env memberId)).
Proof. rewrite tick_member_spec. reflexivity. Qed.

(** X13: the history of a member is a sliding window: after any number
    of ticks it holds the last [rmsHistoryLength] RMS values seen, the
    ones it started with included, in order, and so never more than
    [rmsHistoryLength] of them. *)
Theorem history_is_sliding_window (envs : list tickEnv) (memberId : string)
        (obj : analyzerObj) :
  length (history obj) <= rmsHistoryLength ->
  let seen := history obj ++ rms_values envs memberId in
  history (run_member envs memberId obj).1 = drop (length seen - rmsHistoryLength) seen
  /\ length (history (run_member envs memberId obj).1) <= rmsHistoryLength.
Proof.
  intros Hh seen.
  assert (Hwin : history (run_member envs memberId obj).1
                 = drop (length seen - rmsHistoryLength) seen).
  { subst seen. revert obj Hh. induction envs as [| env envs IH]; intros obj Hh.
    - cbn [run_member rms_values fmap list_fmap fst]. rewrite app_nil_r.
      replace (length (history obj) - rmsHistoryLength) with 0 by lia. reflexivity.
    - rewrite run_member_cons.
      pose proof (tick_member_history env memberId obj) as Hpush.
      rewrite (push_history_window _ _ Hh) in Hpush.
      set (obj1 := (tick_member env memberId obj).1) in *.
      set (rms := computeRms (byteData env memberId)) in *.
      assert (Hh1 : length (history obj1) <= rmsHistoryLength).
      { rewrite Hpush, length_drop. lia. }
      rewrite (IH obj1 Hh1). unfold rms_values. rewrite fmap_cons. fold rms.
      fold (rms_values envs memberId).
      rewrite Hpush.
      replace (history obj ++ rms :: rms_values envs memberId)
        with ((history obj ++ [rms]) ++ rms_values envs memberId)
        by (rewrite <- app_assoc; reflexivity).
      set (h1 := history obj ++ [rms]) in *.
      set (rest := rms_values envs memberId).
      rewrite <- (drop_app_le h1 rest (length h1 - rmsHistoryLength)) by lia.
      rewrite drop_drop. f_equal.
      rewrite !length_app, length_drop, length_app. lia. }
  split; [exact Hwin |]. rewrite Hwin, length_drop. lia.
Qed.

(** X14: the latest VAD value has no influence on a member that is not
    the local one: two sequences of frames in which its analyser gives
    the same bytes take it through the same states, histories and
    notifications, whatever the VAD values and the other members'
    bytes. *)
Theorem remote_member_ignores_vad (envs1 envs2 : list tickEnv) (memberId : string)
        (obj : analyzerObj) :
  Forall2 (fun e1 e2 => byteData e1 memberId = byteData e2 memberId) envs1 envs2 ->
  Forall (fun e => is_local e memberId = false) envs1 ->
  Forall (fun e => is_local e memberId = false) envs2 ->
  run_member envs1 memberId obj = run_member envs2 memberId obj.
Proof.
  intros Hsame. revert obj.
  induction Hsame as [| e1 e2 envs1 envs2 Hdata _ IH]; intros obj H1 H2; [reflexivity |].
  apply Forall_cons in H1 as [Hl1 H1]. apply Forall_cons in H2 as [Hl2 H2].
  cbn [run_member].
  assert (Htick : tick_member e1 memberId obj = tick_member e2 memberId obj).
  { rewrite !tick_member_spec. cbv zeta. unfold tick_average, decide_next.
    rewrite Hdata, Hl1, Hl2. reflexivity. }
  rewrite Htick. destruct (tick_member e2 memberId obj) as [obj1 n1].
  rewrite (IH obj1 H1 H2). reflexivity.
Qed.

Lemma lookup_member_None (memberId : string) (m : analyzers) :
  lookup_member memberId m = None <-> memberId ∉ m.*1.
Proof.
  induction m as [| [k obj] m IH]; cbn [lookup_member].
  - split; [intros _; apply not_elem_of_nil | reflexivity].
  - rewrite fmap_cons, not_elem_of_cons. cbn [fst].
    destruct (String.eqb_spec k memberId) as [-> | Hne].
    + split; [discriminate | intros [Hne _]; congruence].
    + rewrite IH. split; [intros H; split; [congruence | exact H] | intros [_ H]; exact H].
Qed.

Lemma lookup_member_app (memberId : string) (m1 m2 : analyzers) :
  lookup_member memberId (m1 ++ m2)
  = match lookup_member memberId m1 with
    | Some obj => Some obj
    | None => lookup_member memberId m2
    end.
Proof.
  induction m1 as [| [k obj] m1 IH]; [reflexivity |].
  cbn [app lookup_member]. destruct (String.eqb k memberId); [reflexivity | exact IH].
Qed.

Lemma setupAudioLevel_cases (env : setupEnv) (memberId : string)
      (track : option trackKind) (m : analyzers) :
  setupAudioLevel env memberId track m = m
  \/ (lookup_member memberId m = None
      /\ setupAudioLevel env memberId track m
         = m ++ [(memberId, {| history := []; speaking := false |})]).
Proof.
  unfold setupAudioLevel, has_member.
  destruct track as [[|] |]; try (left; reflexivity).
  destruct (lookup_member memberId m); [left; reflexivity |].
  destruct (hasContext env); cbn [negb]; [| left; reflexivity].
  destruct (graphBuilds env); [right; split; reflexivity | left; reflexivity].
Qed.

Lemma lookup_member_new (memberId : string) (m : analyzers) (obj : analyzerObj) :
  lookup_member memberId m = None ->
  lookup_member memberId (m ++ [(memberId, obj)]) = Some obj.
Proof.
  intros Hnone. rewrite lookup_member_app, Hnone. cbn [lookup_member].
  rewrite String.eqb_refl. reflexivity.
Qed.

Lemma setupAudioLevel_keys (env : setupEnv) (memberId : string)
      (track : option trackKind) (m : analyzers) :
  NoDup m.*1 -> NoDup (setupAudioLevel env memberId track m).*1.
Proof.
  intros Hnodup.
  destruct (setupAudioLevel_cases env memberId track m) as [-> | [Hnone ->]];
    [exact Hnodup |].
  rewrite fmap_app. apply NoDup_app. split; [exact Hnodup |]. split.
  - intros x Hx Hin. cbn [fmap list_fmap fst] in Hin.
    apply list_elem_of_singleton in Hin. subst x.
    apply lookup_member_None in Hnone. contradiction.
  - apply NoDup_singleton.
Qed.

(** X15: registering a member never disturbs the map: the member ids
    stay distinct, every entry already there keeps its history and its
    state -- a member registered again, even while Speaking, is not
    reset -- and registering twice is registering once; a new member
    with an audio track, a context and an analyser graph that builds
    comes in Quiet with an empty history. *)
Theorem registration_is_idempotent (env : setupEnv) (memberId : string)
        (track : option trackKind) (m : analyzers) :
  NoDup m.*1 ->
  NoDup (setupAudioLevel env memberId track m).*1
  /\ (forall id obj, lookup_member id m = Some obj ->
                     lookup_member id (setupAudioLevel env memberId track m) = Some obj)
  /\ setupAudioLevel env memberId track (setupAudioLevel env memberId track m)
     = setupAudioLevel env memberId track m
  /\ (track = Some AudioKind -> hasContext env = true -> graphBuilds env = true ->
      lookup_member memberId m = None ->
      lookup_member memberId (setupAudioLevel env memberId track m)
      = Some {| history := []; speaking := false |}).
Proof.
  intros Hnodup. split; [apply setupAudioLevel_keys, Hnodup |]. split; [| split].
  - intros id obj Hid.
    destruct (setupAudioLevel_cases env memberId track m) as [-> | [_ ->]];
      [exact Hid |].
    rewrite lookup_member_app, Hid. reflexivity.
  - destruct (setupAudioLevel_cases env memberId track m) as [H | [Hnone H]].
    + rewrite !H. reflexivity.
    + rewrite H. unfold setupAudioLevel, has_member.
      rewrite (lookup_member_new _ _ _ Hnone).
      destruct track as [[|] |]; reflexivity.
  - intros -> Hctx Hgraph Hnone. unfold setupAudioLevel, has_member.
    rewrite Hnone, Hctx, Hgraph. cbn [negb]. apply lookup_member_new, Hnone.
Qed.

Lemma audioLevelLoop_histories (env : tickEnv) (m : analyzers) :
  Forall (fun e => length (history e.2) <= rmsHistoryLength) m ->
  Forall (fun e => length (history e.2) <= rmsHistoryLength) (audioLevelLoop env m).1.
Proof.
  induction 1 as [| [k obj] m Hobj _ IH]; [constructor |].
  cbn [audioLevelLoop].
  pose proof (tick_member_history env k obj) as Hh.
  destruct (tick_member env k obj) as [obj' n1].
  destruct (audioLevelLoop env m) as [rest' n2]. cbn [fst snd] in *.
  constructor; [| exact IH]. cbn [snd] in *.
  rewrite Hh, push_history_window by exact Hobj. rewrite length_drop, length_app.
  cbn [length]. lia.
Qed.

(** X16: in every state the analyser map can reach from empty by
    registrations, animation frames and shutdowns, in any order, the
    member ids are distinct and no history holds more than
    [rmsHistoryLength] values. *)
Theorem monitor_invariant (evs : list monitorEvent) :
  NoDup (monitor_run evs).*1
  /\ Forall (fun e => length (history e.2) <= rmsHistoryLength) (monitor_run evs).
Proof.
  unfold monitor_run.
  assert (Hgen : forall m,
             NoDup m.*1 /\ Forall (fun e => length (history e.2) <= rmsHistoryLength) m ->
             NoDup (foldl monitor_step m evs).*1
             /\ Forall (fun e => length (history e.2) <= rmsHistoryLength)
                       (foldl monitor_step m evs)).
  { induction evs as [| ev evs IH]; intros m Hm; [exact Hm |].
    cbn [foldl]. apply IH. destruct Hm as [Hnodup Hhist].
    destruct ev as [env memberId track | env |]; cbn [monitor_step].
    - split; [apply setupAudioLevel_keys, Hnodup |].
      unfold setupAudioLevel.
      destruct track as [[|] |]; try exact Hhist.
      destruct (has_member memberId m); [exact Hhist |].
      destruct (negb (hasContext env)); [exact Hhist |].
      destruct (graphBuilds env); [| exact Hhist].
      apply Forall_app. split; [exact Hhist |].
      constructor; [cbn; unfold rmsHistoryLength; lia | constructor].
    - split; [rewrite audioLevelLoop_keys; exact Hnodup |].
      apply audioLevelLoop_histories, Hhist.
    - cbn [stopAudioLevelMonitor fst]. split; [constructor | constructor]. }
  apply Hgen. split; constructor.
Qed.

(** X17: shutting the monitor down notifies Quiet exactly once for every
    registered member, whether it was Speaking or already Quiet, and
    leaves no member, so that no later animation frame notifies
    anything. *)
Theorem shutdown_notifies_every_member (m : analyzers) (memberId : string)
        (obj : analyzerObj) (envs : list tickEnv) :
  NoDup m.*1 -> lookup_member memberId m = Some obj ->
  notifications_for memberId (stopAudioLevelMonitor m).2 = [(memberId, false)]
  /\ length (stopAudioLevelMonitor m).2 = length m
  /\ run_ticks envs (stopAudioLevelMonitor m).1 = ([], []).
Proof.
  intros Hnodup Hlook. cbn [stopAudioLevelMonitor fst snd]. split; [| split].
  - induction m as [| [k o] m IH]; [discriminate |].
    rewrite fmap_cons in Hnodup. cbn [fst] in Hnodup.
    apply NoDup_cons in Hnodup as [Hfresh Hnodup].
    rewrite fmap_cons. cbn [fst lookup_member notifications_for List.filter] in *.
    destruct (String.eqb_spec k memberId) as [-> | Hne].
    + f_equal. clear -Hfresh. induction m as [| [k' o'] m IH]; [reflexivity |].
      rewrite fmap_cons in Hfresh. cbn [fst] in Hfresh.
      apply not_elem_of_cons in Hfresh as [Hne Hfresh].
      rewrite fmap_cons. cbn [fst List.filter].
      destruct (String.eqb_spec k' memberId) as [-> | _]; [congruence | apply IH, Hfresh].
    + apply IH; assumption.
  - apply length_fmap.
  - induction envs as [| env envs IH]; [reflexivity |].
    cbn [run_ticks audioLevelLoop]. rewrite IH. reflexivity.
Qed.

Lemma changes_alternate (memberId : string) (states : list bool) :
  forall prev : bool,
    exists n, changes memberId prev states
              = (fun s => (memberId, s)) <$> alternating prev n
              /\ n <= length states.
Proof.
  induction states as [| s states IH]; intros prev.
  - exists 0. split; [reflexivity | reflexivity].
  - cbn [changes]. destruct (IH s) as (n & Hn & Hle).
    destruct (Bool.eqb s prev) eqn:Heq.
    + apply Bool.eqb_prop in Heq. subst s. exists n. split; [exact Hn | simpl; lia].
    + assert (Hs : s = negb prev) by (destruct s, prev; try discriminate; reflexivity).
      exists (S n). split; [| simpl; lia].
      cbn [alternating fmap list_fmap app]. rewrite Hn, Hs. reflexivity.
Qed.

(** X18: the notifications for a member strictly alternate: over any
    sequence of animation frames they are Speaking, Quiet, Speaking, ...
    for a member that starts Quiet (and the other way round for one that
    starts Speaking), never the same state twice in a row, and at most
    one per frame. *)
Theorem notifications_alternate (envs : list tickEnv) (m : analyzers) (memberId : string)
        (obj : analyzerObj) :
  NoDup m.*1 -> lookup_member memberId m = Some obj ->
  exists n,
    notifications_for memberId (run_ticks envs m).2
    = (fun s => (memberId, s)) <$> alternating (speaking obj) n
    /\ n <= length envs.
Proof.
  intros Hnodup Hlook.
  rewrite (run_ticks_notifications envs memberId m obj Hnodup Hlook), run_member_changes.
  destruct (changes_alternate memberId (states_member envs memberId obj) (speaking obj))
    as (n & Hn & Hle).
  exists n. split; [exact Hn |].
  assert (Hlen : length (states_member envs memberId obj) = length envs).
  { clear. revert obj. induction envs as [| env envs IH]; intros obj; [reflexivity |].
    cbn [states_member length]. rewrite IH. reflexivity. }
  lia.
Qed.

End DetectorLifecycle.

(** * Instances *)

Section Instances.

Local Open Scope nat_scope.

Import Receiver.

Lemma passthrough_without_state_witness :
  let p := {| state := @None unit; frameSize := 480%Z; vadInterval := 10%Z; buf := [];
              work := replicate 480 zero; frameCounter := 0%Z |} in
  process untouched p (Some [[smp 1; nan; smp 3]]) [[smp 9; smp 9; smp 9; smp 9]]
  = Returns (p, {| channels := [[smp 1; zero; smp 3; zero]]; posted := []; copied := 0 |}).
Proof.
  intros p.
  exact (proj1 (passthrough_without_state unit untouched p [smp 1; nan; smp 3]
                  [smp 9; smp 9; smp 9; smp 9] [] [] eq_refl)).
Defined.

Lemma silent_call_is_transparent_witness :
  exists p1 es1 p2 es2,
    run untouched (fresh tt 2) [(Some [[smp 1; smp 2; smp 3]], [[zero; zero]])]
    = Returns (p1, es1)
    /\ run untouched p1 [(Some [[smp 4]], [[zero; zero]])] = Returns (p2, es2)
    /\ run untouched (fresh tt 2)
           ([(Some [[smp 1; smp 2; smp 3]], [[zero; zero]])]
              ++ [(Some [[smp 4]], [[zero; zero]])])
       = Returns (p2, es1 ++ es2)
    /\ run untouched (fresh tt 2)
           ([(Some [[smp 1; smp 2; smp 3]], [[zero; zero]])]
              ++ (None, [[smp 9; smp 9]]) :: [(Some [[smp 4]], [[zero; zero]])])
       = Returns (p2, es1 ++ silent_effects [[smp 9; smp 9]] :: es2).
Proof.
  apply (silent_call_is_transparent unit untouched (fresh tt 2)).
  - split; reflexivity.
  - left. reflexivity.
Defined.

Lemma priming_call_witness :
  process untouched (fresh tt 4) (Some [[smp 1; smp 2; smp 3]]) [[smp 9; smp 9]]
  = Returns ({| state := Some tt; frameSize := 4%Z; vadInterval := 10%Z;
                buf := [smp 1; smp 2; smp 3]; work := replicate 4 zero;
                frameCounter := 0%Z |},
             {| channels := [[zero; zero]]; posted := []; copied := 0 |}).
Proof.
  apply (priming_call unit untouched (fresh tt 4) [smp 1; smp 2; smp 3] [smp 9; smp 9] [] []).
  - exists tt. reflexivity.
  - reflexivity.
Defined.

Lemma frames_per_call_witness :
  exists p' e,
    process untouched (fresh tt 2) (Some [[smp 1; smp 2; smp 3; smp 4; smp 5]])
            [[zero; zero; zero]]
    = Returns (p', e)
    /\ frameCounter p' = (0 + Z.of_nat (((0 + 5) / 2) `min` ((3 + 2 - 1) / 2)))%Z
    /\ length (buf p') = 0 + 5 - ((0 + 5) / 2) `min` ((3 + 2 - 1) / 2) * 2
    /\ copied e = 3 `min` (((0 + 5) / 2) `min` ((3 + 2 - 1) / 2) * 2).
Proof.
  apply (frames_per_call unit untouched (fresh tt 2) [smp 1; smp 2; smp 3; smp 4; smp 5]
                         [zero; zero; zero] [] []).
  - split; reflexivity.
  - exists tt. reflexivity.
Defined.

Lemma one_frame_per_call_witness :
  exists p' e,
    process untouched (fresh tt 4) (Some [[smp 1; smp 2; smp 3; smp 4; smp 5]])
            [[zero; zero]]
    = Returns (p', e)
    /\ frameCounter p' = 1%Z
    /\ buf p' = [smp 5]
    /\ channels e = [[smp 1; smp 2]]
    /\ copied e = 2.
Proof.
  destruct (one_frame_per_call unit untouched (fresh tt 4)
              [smp 1; smp 2; smp 3; smp 4; smp 5] [zero; zero] [] []
              (conj eq_refl eq_refl) (ex_intro _ tt eq_refl))
    as (p' & e & Hp & Hc & _ & Hb & Hch & Hcop & _).
  - simpl. lia.
  - simpl. lia.
  - simpl. lia.
  - exists p', e. repeat split; assumption.
Defined.

Lemma call_keeps_shape_witness :
  exists p' e,
    process untouched (fresh tt 2) (Some [[smp 1; smp 2; smp 3]])
            [[zero; zero; zero]; [smp 7]]
    = Returns (p', e)
    /\ length <$> channels e = [3; 1]
    /\ tail (channels e) = [[smp 7]]
    /\ frameSize p' = 2%Z
    /\ vadInterval p' = 10%Z
    /\ (0 <= frameCounter p')%Z.
Proof.
  apply (call_keeps_shape unit untouched (fresh tt 2) (Some [[smp 1; smp 2; smp 3]])
                          [[zero; zero; zero]; [smp 7]]).
  split; reflexivity.
Defined.

Lemma zero_frame_size_never_returns_witness :
  exists p,
    constructor example_max_length (options_with tt (Some 0%Z) None) = Returns p
    /\ (forall fuel,
           frame_loop untouched fuel
                      {| state := state p; frameSize := frameSize p;
                         vadInterval := vadInterval p; buf := buf p ++ [smp 1];
                         work := work p; frameCounter := frameCounter p |}
                      [zero] 0 [] = Hangs)
    /\ process untouched p (Some [[smp 1]]) [[zero]] = Hangs.
Proof.
  apply (zero_frame_size_never_returns unit untouched example_max_length tt None
           [smp 1] [zero] [] []).
  discriminate.
Defined.

Lemma frames_are_whole_witness :
  exists k p' es,
    run recording (fresh [] 2)
        [(Some [[smp 1; smp 2; smp 3]], [[zero; zero]]);
         (Some [[smp 4; smp 5]], [[zero; zero]])]
    = Returns (p', es)
    /\ state p' = Some ([] ++ replicate k 2)
    /\ frameCounter p' = (0 + Z.of_nat k)%Z.
Proof.
  apply (frames_are_whole (fresh [] 2)
           [(Some [[smp 1; smp 2; smp 3]], [[zero; zero]]);
            (Some [[smp 4; smp 5]], [[zero; zero]])] []).
  - split; reflexivity.
  - reflexivity.
Defined.

Lemma negative_interval_as_positive_witness :
  exists p' es,
    run untouched (with_interval 2 (fresh tt 1))
        [(Some [[smp 1; smp 2; smp 3; smp 4]], [[zero; zero; zero; zero]])]
    = Returns (p', es)
    /\ run untouched (with_interval (- 2) (fresh tt 1))
           [(Some [[smp 1; smp 2; smp 3; smp 4]], [[zero; zero; zero; zero]])]
       = Returns (with_interval (- 2) p', es).
Proof.
  apply (negative_interval_as_positive unit untouched (fresh tt 1)).
  split; reflexivity.
Defined.

Lemma worklet_as_wired_passes_through_witness :
  exists p : processor unit,
    constructor example_max_length (worklet_options 480) = Returns p
    /\ state p = None /\ buf p = [] /\ frameCounter p = 0%Z
    /\ run untouched p [(Some [[smp 1; smp 2]], [[smp 9; smp 9]])]
       = Returns (p, passthrough_effects <$> [(Some [[smp 1; smp 2]], [[smp 9; smp 9]])]).
Proof.
  apply (worklet_as_wired_passes_through unit untouched example_max_length 480).
  split; discriminate.
Defined.

Lemma worklet_as_wired_never_reinforces_witness :
  exists (p p' : processor unit) es,
    constructor example_max_length (worklet_options 480) = Returns p
    /\ run untouched p [(Some [[smp 1; smp 2]], [[smp 9; smp 9]])] = Returns (p', es)
    /\ concat (posted <$> es) = []
    /\ deliver zero (concat (posted <$> es)) = zero
    /\ forall prev avg isLocal,
        decide_next prev avg isLocal (deliver zero (concat (posted <$> es)))
        = rms_rule prev avg.
Proof.
  apply (worklet_as_wired_never_reinforces unit untouched example_max_length 480).
  split; discriminate.
Defined.

Lemma latest_vad_is_last_boundary_witness :
  let f := fun i : nat => smp (Z.of_nat i) in
  exists p' es,
    run (scripted f) (fresh 0 1) [(Some [replicate 25 (smp 7)], [replicate 25 zero])]
    = Returns (p', es)
    /\ deliver zero (concat (posted <$> es)) = f 20.
Proof.
  intros f.
  destruct (latest_vad_is_last_boundary f example_max_length (Some 1%Z) 10
              [(Some [replicate 25 (smp 7)], [replicate 25 zero])] zero)
    as (p & p' & es & Hctor & Hrun & Hlatest).
  - split; [reflexivity | discriminate].
  - lia.
  - injection Hctor as <-.
    assert (Hcount : frameCounter p' = 25%Z).
    { vm_compute in Hrun. injection Hrun as <- _. reflexivity. }
    exists p', es. split; [exact Hrun |].
    cbv zeta in Hlatest. rewrite Hcount in Hlatest. exact Hlatest.
Defined.

Lemma history_is_sliding_window_witness :
  let quiet := uniform_env silence None zero in
  let faint := uniform_env murmur None zero in
  let envs := [faint; faint; quiet; quiet; quiet; quiet; quiet] in
  history (run_member envs "bob" registered).1 = drop 2 (rms_values envs "bob")
  /\ history (run_member envs "bob" registered).1 = [zero; zero; zero; zero; zero]
  /\ length (history (run_member envs "bob" registered).1) <= rmsHistoryLength.
Proof.
  intros quiet faint envs.
  destruct (history_is_sliding_window envs "bob" registered) as [Hwin Hlen].
  - simpl. unfold rmsHistoryLength. lia.
  - split; [exact Hwin |]. split; [| exact Hlen].
    rewrite Hwin. vm_compute. reflexivity.
Defined.

Lemma remote_member_ignores_vad_witness :
  run_member [uniform_env murmur (Some "me"%string) zero] "bob" registered
  = run_member [uniform_env murmur (Some "me"%string) (decimal 8 1)] "bob" registered.
Proof.
  apply remote_member_ignores_vad.
  - constructor; [reflexivity | constructor].
  - constructor; [reflexivity | constructor].
  - constructor; [reflexivity | constructor].
Defined.

Lemma registration_is_idempotent_witness :
  let env := {| hasContext := true; graphBuilds := true |} in
  let m := [("alice"%string, {| history := [zero]; speaking := true |})] in
  NoDup (setupAudioLevel env "alice" (Some AudioKind) m).*1
  /\ lookup_member "alice" (setupAudioLevel env "alice" (Some AudioKind) m)
     = Some {| history := [zero]; speaking := true |}.
Proof.
  intros env m.
  destruct (registration_is_idempotent env "alice" (Some AudioKind) m) as (Hk & Hl & _).
  - repeat constructor. apply not_elem_of_nil.
  - split; [exact Hk | apply Hl; reflexivity].
Defined.

Lemma shutdown_notifies_every_member_witness :
  let m := [("alice"%string, {| history := [zero]; speaking := true |});
            ("bob"%string, registered)] in
  notifications_for "bob" (stopAudioLevelMonitor m).2 = [("bob"%string, false)]
  /\ length (stopAudioLevelMonitor m).2 = length m
  /\ run_ticks [uniform_env silence None zero] (stopAudioLevelMonitor m).1 = ([], []).
Proof.
  intros m.
  apply (shutdown_notifies_every_member m "bob" registered).
  - repeat constructor; rewrite ?list_elem_of_In; simpl; intuition discriminate.
  - reflexivity.
Defined.

Lemma notifications_alternate_witness :
  let envs := [uniform_env silence (Some "me"%string) (decimal 8 1);
               uniform_env silence (Some "me"%string) zero;
               uniform_env silence (Some "me"%string) zero] in
  let m := [("alice"%string, registered); ("me"%string, registered)] in
  exists n,
    notifications_for "me" (run_ticks envs m).2
    = (fun s => ("me"%string, s)) <$> alternating false n
    /\ n <= 3
    /\ n = 2
    /\ notifications_for "me" (run_ticks envs m).2
       = [("me"%string, true); ("me"%string, false)].
Proof.
  intros envs m.
  destruct (notifications_alternate envs m "me" registered) as (n & Hn & Hle).
  - repeat constructor; rewrite ?list_elem_of_In; simpl; intuition discriminate.
  - reflexivity.
  - assert (Hval : notifications_for "me" (run_ticks envs m).2
                   = [("me"%string, true); ("me"%string, false)])
      by (vm_compute; reflexivity).
    exists n. split; [exact Hn |]. split; [exact Hle |]. split; [| exact Hval].
    rewrite Hval in Hn. clear -Hn.
    destruct n as [| [| [| n]]]; try discriminate Hn. reflexivity.
Defined.

Lemma failure_recovery_witness :
  (exists r,
     run always_failing (fresh tt 2) [(Some [[smp 1; smp 2; smp 3]], [[zero; zero]])]
     = Returns r)
  /\ run always_failing (fresh tt 2) [(Some [[smp 1; smp 2; smp 3]], [[zero; zero]])]
     = run (recovered always_failing) (fresh tt 2)
           [(Some [[smp 1; smp 2; smp 3]], [[zero; zero]])].
Proof.
  destruct (failure_recovery unit always_failing (fresh tt 2)
              [(Some [[smp 1; smp 2; smp 3]], [[zero; zero]])] (conj eq_refl eq_refl))
    as (Hret & Heq & _).
  split; assumption.
Defined.

Lemma framing_independent_of_chunking_witness :
  let p := with_interval 1 (fresh 0 2) in
  let calls1 := [(Some [[smp 1; smp 2; smp 3]], [[zero; zero]]);
                 (Some [[smp 4; smp 5]], [[zero; zero]])] in
  let calls2 := [(Some [[smp 1]], [[zero; zero]]);
                 (Some [[smp 2; smp 3; smp 4; smp 5]], [[zero; zero; zero; zero]])] in
  exists p1 es1 p2 es2,
    run (scripted (fun i => smp (Z.of_nat i))) p calls1 = Returns (p1, es1)
    /\ run (scripted (fun i => smp (Z.of_nat i))) p calls2 = Returns (p2, es2)
    /\ frameCounter p1 = 2%Z /\ frameCounter p2 = 2%Z
    /\ buf p1 = buf p2 /\ state p1 = state p2
    /\ concat (posted <$> es1) = concat (posted <$> es2)
    /\ concat (posted <$> es1) = [VadMessage (smp 1); VadMessage (smp 2)].
Proof.
  intros p calls1 calls2.
  destruct (framing_independent_of_chunking nat (scripted (fun i => smp (Z.of_nat i)))
              p calls1 calls2 (conj eq_refl eq_refl) (ex_intro _ 0 eq_refl) eq_refl)
    as (p1 & es1 & p2 & es2 & Hrun1 & Hrun2 & Hsame).
  assert (Hc1 : frameCounter p1 = 2%Z).
  { vm_compute in Hrun1. injection Hrun1 as <- _. reflexivity. }
  assert (Hc2 : frameCounter p2 = 2%Z).
  { vm_compute in Hrun2. injection Hrun2 as <- _. reflexivity. }
  assert (Hposts : concat (posted <$> es1) = [VadMessage (smp 1); VadMessage (smp 2)]).
  { vm_compute in Hrun1. injection Hrun1 as _ <-. vm_compute. reflexivity. }
  destruct (Hsame ltac:(congruence)) as (Hb & Hs & Hp).
  exists p1, es1, p2, es2. repeat split; assumption.
Defined.

End Instances.
